(** * CommonMach-OPrefix.h: the prefix header as a preprocessor program

    The header Legacy/QFog2-MachO/QFogSource/Headers/CommonMach-OPrefix.h
    holds preprocessor directives only.  Its meaning is what the
    preprocessor does with them: which macros get defined, to what, which
    headers are included, and which diagnostics are reported.

    The embedding below writes every directive of the header as a state
    transformer on the macro table, in the order of the source, with the
    conditionals of the source as conditionals on that table.  Macro
    replacement lists and [#if] lines are lists of preprocessing tokens,
    token for token as in the source; a macro is replaced by its tokens
    and the line is parsed afterwards.  A diagnostic ([#error], or an
    [#if] that the preprocessor rejects) is reported and preprocessing
    goes on with the next line. *)

From stdpp Require Import gmap strings list.
From Stdlib Require Import NArith.

Local Open Scope string_scope.
Local Open Scope list_scope.
Local Open Scope N_scope.

(** ** Preprocessing tokens and macros *)

(** The tokens of the header's [#if] lines and replacement lists are
    integer literals, identifiers, parentheses, [!], [==], [&&], [||].
    Every other preprocessing token is [TOther], by its spelling. *)
Inductive token : Type :=
  | TNum (n : N)              (* an integer literal, by its value *)
  | TId (x : string)          (* an identifier *)
  | TLParen                   (* ( *)
  | TRParen                   (* ) *)
  | TNot                      (* ! *)
  | TEqEq                     (* == *)
  | TAndAnd                   (* && *)
  | TOrOr                     (* || *)
  | TOther (spelling : string).

(** [#define x body] makes an object-like macro; the table before the
    header may also hold function-like ones. *)
Inductive macro : Type :=
  | Object (body : list token)
  | FunctionLike (params : list string) (body : list token).

#[global] Instance token_eq_dec : EqDecision token.
Proof. solve_decision. Defined.

#[global] Instance macro_eq_dec : EqDecision macro.
Proof. solve_decision. Defined.

Abbreviation macro_table := (gmap string macro).

(** ** Macro replacement *)

(** Identifiers that the preprocessor does not treat as plain names in an
    [#if]: the operator [defined], the C++ literals and alternative
    operator spellings, [_Pragma], and the names that begin with two
    underscores, which belong to the implementation ([__LINE__],
    [__has_include], ...). *)
Definition reserved (x : string) : bool :=
  bool_decide (x ∈ [ "defined"; "true"; "false";
                     "and"; "and_eq"; "bitand"; "bitor"; "compl"; "not";
                     "not_eq"; "or"; "or_eq"; "xor"; "xor_eq"; "_Pragma" ])
  || String.prefix "__" x.

(** Replacement of the object-like macros in a token list.  The tokens of
    a replacement list are scanned again, with the macro itself hidden (a
    macro is not replaced inside its own replacement).  Each nested
    replacement hides one more name of the table, so the nesting is
    bounded by the size of the table; [fuel] counts it. *)
Fixpoint expand_fuel (fuel : nat) (m : macro_table) (ts : list token)
  : list token :=
  match fuel with
  | O => ts
  | S fuel' =>
      flat_map (fun t =>
                  match t with
                  | TId x =>
                      if reserved x then [t]
                      else match m !! x with
                           | Some (Object body) =>
                               expand_fuel fuel' (delete x m) body
                           | _ => [t]
                           end
                  | _ => [t]
                  end) ts
  end.

Definition expand (m : macro_table) (ts : list token) : list token :=
  expand_fuel (size m) m ts.

(** What replacement does with one token. *)
Definition expand_token (m : macro_table) (t : token) : list token :=
  match t with
  | TId x =>
      if reserved x then [t]
      else match m !! x with
           | Some (Object body) => expand (delete x m) body
           | _ => [t]
           end
  | _ => [t]
  end.

(** ** Evaluation of an [#if] line *)

(** The tokens that the evaluation below accounts for.  An identifier
    that is left after replacement is a plain name: not a reserved one,
    and not the name of a function-like macro. *)
Definition modelled (m : macro_table) (t : token) : bool :=
  match t with
  | TId x =>
      negb (reserved x) &&
      match m !! x with
      | Some (FunctionLike _ _) => false
      | _ => true
      end
  | TOther _ => false
  | _ => true
  end.

(** A number or a plain name: one operand, with no operator in it. *)
Definition operand (m : macro_table) (t : token) : bool :=
  match t with
  | TNum _ => true
  | TId _ => modelled m t
  | _ => false
  end.

(** [#if] arithmetic is done in the widest integer type, 64 bits; a
    literal that does not fit is cut to its low 64 bits. *)
Definition wrap (n : N) : N := n mod 2 ^ 64.

Definition truth (b : bool) : N := if b then 1 else 0.

(** The expression is parsed with a stack of pending operators and a
    stack of values.  [!] binds tighter than [==], [==] tighter than
    [&&], [&&] tighter than [||]; the binary operators associate to the
    left. *)
Inductive operator : Type := OParen | ONot | OEq | OAnd | OOr.

Definition precedence (o : operator) : nat :=
  match o with
  | OParen => 0
  | OOr => 1
  | OAnd => 2
  | OEq => 3
  | ONot => 4
  end.

Definition apply_operator (o : operator) (vs : list N) : option (list N) :=
  match o, vs with
  | ONot, a :: vs' => Some (truth (a =? 0) :: vs')
  | OEq, b :: a :: vs' => Some (truth (a =? b) :: vs')
  | OAnd, b :: a :: vs' => Some (truth (negb (a =? 0) && negb (b =? 0)) :: vs')
  | OOr, b :: a :: vs' => Some (truth (negb (a =? 0) || negb (b =? 0)) :: vs')
  | _, _ => None
  end.

(** Apply the pending operators that bind at least as tightly as [p]. *)
Fixpoint reduce (p : nat) (os : list operator) (vs : list N)
  : option (list operator * list N) :=
  match os with
  | o :: os' =>
      if (p <=? precedence o)%nat then
        match apply_operator o vs with
        | Some vs' => reduce p os' vs'
        | None => None
        end
      else Some (os, vs)
  | [] => Some ([], vs)
  end.

(** [want] tells whether an operand is expected next.  A plain name
    counts as 0.  [None]: the preprocessor rejects the line (no
    expression, a missing operand or operator, an unbalanced
    parenthesis). *)
Fixpoint parse (ts : list token) (want : bool) (os : list operator)
    (vs : list N) : option N :=
  let value v ts' :=
    if want then parse ts' false os (v :: vs) else None in
  let prefix o ts' :=
    if want then parse ts' true (o :: os) vs else None in
  let binary o ts' :=
    if want then None
    else match reduce (precedence o) os vs with
         | Some (os', vs') => parse ts' true (o :: os') vs'
         | None => None
         end in
  match ts with
  | [] =>
      if want then None
      else match reduce 1 os vs with
           | Some ([], [v]) => Some v
           | _ => None
           end
  | TNum n :: ts' => value (wrap n) ts'
  | TId _ :: ts' => value 0 ts'
  | TNot :: ts' => prefix ONot ts'
  | TLParen :: ts' => prefix OParen ts'
  | TRParen :: ts' =>
      if want then None
      else match reduce 1 os vs with
           | Some (OParen :: os', vs') => parse ts' false os' vs'
           | _ => None
           end
  | TEqEq :: ts' => binary OEq ts'
  | TAndAnd :: ts' => binary OAnd ts'
  | TOrOr :: ts' => binary OOr ts'
  | TOther _ :: _ => None
  end.

Definition eval_tokens (ts : list token) : option N := parse ts true [] [].

(** The value of an [#if] line in a macro table: macros are replaced,
    then the tokens are parsed.  [Unmodelled]: the line, after
    replacement, holds a token that is outside the ones above (another
    operator, [defined], a function-like macro, ...). *)
Inductive outcome : Type :=
  | Value (v : N)
  | Rejected
  | Unmodelled.

Definition eval_expr (m : macro_table) (ts : list token) : outcome :=
  let ts' := expand m ts in
  if forallb (modelled m) ts' then
    match eval_tokens ts' with
    | Some v => Value v
    | None => Rejected
    end
  else Unmodelled.

(** ** Preprocessor state and directives *)

Inductive header_name : Type :=
  | Angle (h : string)     (* #include <h> *)
  | Quoted (h : string).   (* #include "h" *)

(** What the header itself does, in order. *)
Inductive event : Type :=
  | Defined (x : string) (body : list token)
  | Included (h : header_name).

#[global] Instance header_name_eq_dec : EqDecision header_name.
Proof. solve_decision. Defined.

#[global] Instance event_eq_dec : EqDecision event.
Proof. solve_decision. Defined.

Record pp_state : Type := PPState {
  macros : macro_table;
  trace : list event
}.

(** What the preprocessor reports: an [#error] directive of the header,
    or an [#if] whose expression it rejects, with the line of the
    [#if]. *)
Inductive diagnostic : Type :=
  | ErrorDirective (msg : string)
  | MalformedIf (line : nat).

#[global] Instance diagnostic_eq_dec : EqDecision diagnostic.
Proof. solve_decision. Defined.

(** A directive, or a group of directives, maps the state and the
    diagnostics reported so far to the state and the diagnostics after
    it.  A diagnostic makes the compilation fail in the end, but it does
    not end preprocessing: the lines that follow are processed. *)
Definition directive : Type :=
  pp_state * list diagnostic -> pp_state * list diagnostic.

Definition pp_skip : directive := fun c => c.

Definition pp_seq (d1 d2 : directive) : directive := fun c => d2 (d1 c).

Declare Scope directive_scope.
Delimit Scope directive_scope with pp.
Bind Scope directive_scope with directive.

Notation "d1 ;; d2" := (pp_seq d1 d2)
  (at level 100, d2 at level 200, right associativity) : directive_scope.

Local Open Scope directive_scope.

(** [#define x body].  A later definition of the same name replaces the
    earlier one. *)
Definition pp_define (x : string) (body : list token) : directive :=
  fun c =>
    (PPState (<[x := Object body]> (macros c.1)) (trace c.1 ++ [Defined x body]),
     c.2).

Definition pp_report (e : diagnostic) : directive :=
  fun c => (c.1, c.2 ++ [e]).

Definition pp_error (msg : string) : directive :=
  pp_report (ErrorDirective msg).

Definition pp_ifndef (x : string) (body : directive) : directive :=
  fun c =>
    match macros c.1 !! x with
    | None => body c
    | Some _ => c
    end.

Section Preprocessor.

(** The included headers are not part of the file.  What preprocessing
    one of them does to the macro table is a parameter. *)
Variable included : header_name -> macro_table -> macro_table.

(** So is the verdict of the preprocessor on an [#if] line that, after
    replacement, holds tokens outside the modelled ones: the line number,
    the macro table and the tokens of the line give a value, or [None]
    when the preprocessor rejects the line. *)
Variable beyond : nat -> macro_table -> list token -> option N.

Definition pp_include (h : header_name) : directive :=
  fun c => (PPState (included h (macros c.1)) (trace c.1 ++ [Included h]), c.2).

Definition controlling (line : nat) (m : macro_table) (ts : list token)
  : option N :=
  match eval_expr m ts with
  | Value v => Some v
  | Rejected => None
  | Unmodelled => beyond line m ts
  end.

(** [#if] at [line], with its group and its [#else] group.  A rejected
    expression is reported and counts as false. *)
Definition pp_if (line : nat) (cond : list token) (then_ else_ : directive)
  : directive :=
  fun c =>
    match controlling line (macros c.1) cond with
    | Some v => if v =? 0 then else_ c else then_ c
    | None => else_ (pp_report (MalformedIf line) c)
    end.

(** *** The header, group by group *)

(** Lines 9-15, "Mach-O Target". *)
Definition mach_o_target : directive :=
  pp_define "PP_Target_Carbon" [TNum 1] ;;
  pp_define "PP_Target_Classic"
            [TLParen; TNot; TId "PP_Target_Carbon"; TRParen] ;;
  pp_define "TARGET_API_MAC_CARBON" [TId "PP_Target_Carbon"] ;;
  pp_define "TARGET_API_MAC_OS8" [TId "PP_Target_Classic"] ;;
  pp_define "TARGET_API_MAC_OSX" [TId "PP_Target_Carbon"].

(** Lines 21-30, "Options". *)
Definition options : directive :=
  pp_define "PP_Uses_PowerPlant_Namespace" [TNum 0] ;;
  pp_define "PP_Supports_Pascal_Strings" [TNum 1] ;;
  pp_define "PP_StdDialogs_Option" [TId "PP_StdDialogs_NavServicesOnly"] ;;
  pp_define "PP_Uses_Old_Integer_Types" [TNum 0] ;;
  pp_define "PP_Obsolete_AllowTargetSwitch" [TNum 0] ;;
  pp_define "PP_Obsolete_ThrowExceptionCode" [TNum 0] ;;
  pp_define "PP_Warn_Obsolete_Classes" [TNum 1] ;;
  pp_define "PP_Suppress_Notes_221" [TNum 1].

(** Lines 40-42. *)
Definition fixeddecimal_guard : directive :=
  pp_ifndef "FIXEDDECIMAL" (pp_define "FIXEDDECIMAL" [TNum 1]).

(** Lines 32-46: the library prefix, the math headers, [FIXEDDECIMAL],
    [NO_BLOCKMOVE_INLINE]. *)
Definition msl_and_math : directive :=
  pp_include (Angle "MSLCarbonPrefix.h") ;;
  pp_include (Angle "cmath") ;;
  pp_include (Angle "fp.h") ;;
  pp_include (Angle "complex") ;;
  fixeddecimal_guard ;;
  pp_define "NO_BLOCKMOVE_INLINE" [TNum 1].

(** Line 58: [!(_do_debug==0 || _do_debug==1)]. *)
Definition not_zero_or_one : list token :=
  [ TNot; TLParen; TId "_do_debug"; TEqEq; TNum 0; TOrOr;
    TId "_do_debug"; TEqEq; TNum 1; TRParen ].

(** Lines 54-60: the two [#error] guards on [_do_debug]. *)
Definition do_debug_guards : directive :=
  pp_ifndef "_do_debug" (pp_error "_do_debug is not yet #defined") ;;
  pp_if 58 not_zero_or_one
        (pp_error "_do_debug is not zero or one")
        pp_skip.

(** Lines 65-79: "MacOS Macros", "use new PP API", "for MSL". *)
Definition macos_macros : directive :=
  pp_define "OLDROUTINENAMES" [TNum 0] ;;
  pp_define "OLDROUTINELOCATIONS" [TNum 0] ;;
  pp_define "SystemSevenOrLater" [TNum 1] ;;
  pp_define "PP_Obsolete_Constants" [TNum 0] ;;
  pp_define "PP_Obsolete_Stream_Creators" [TNum 0] ;;
  pp_define "PP_Obsolete_Array_API" [TNum 0] ;;
  pp_if 77 [TNum 0]
        (pp_define "__dest_os" [TId "__mac_os"])
        pp_skip.

(** Lines 81-116: the debugging macros, by [_do_debug]. *)
Definition debug_macros : directive :=
  pp_if 81 [TId "_do_debug"]
        (pp_define "Debug_Throw" [] ;;
         pp_define "Debug_Signal" [] ;;
         pp_define "PP_DEBUG" [TNum 1] ;;
         pp_define "PP_SPOTLIGHT_SUPPORT" [TNum 1] ;;
         pp_define "PP_QC_SUPPORT" [TNum 0] ;;
         pp_define "PP_DEBUGNEW_SUPPORT" [TNum 0])
        (pp_define "PP_DEBUG" [TNum 0] ;;
         pp_define "PP_SPOTLIGHT_SUPPORT" [TNum 0] ;;
         pp_define "PP_QC_SUPPORT" [TNum 0] ;;
         pp_define "PP_DEBUGNEW_SUPPORT" [TNum 0] ;;
         pp_define "DEBUG_NEW" [TId "DEBUG_NEW_OFF"]).

(** Line 149: [PP_DEBUGNEW_SUPPORT && DEBUG_NEW == DEBUG_NEW_LEAKS]. *)
Definition debug_new_leaks_condition : list token :=
  [ TId "PP_DEBUGNEW_SUPPORT"; TAndAnd;
    TId "DEBUG_NEW"; TEqEq; TId "DEBUG_NEW_LEAKS" ].

(** Lines 121-155: the [new]/[NEW] replacement of DebugNew. *)
Definition debug_new_leaks : directive :=
  pp_if 121 [TId "_do_debug"]
        (pp_if 149 debug_new_leaks_condition
               (pp_include (Angle "new.h") ;;
                pp_define "new" [TId "NEW"])
               pp_skip)
        pp_skip.

(** Lines 160-171: "in addition to what is in PP_ClassHeaders.cp". *)
Definition class_headers : directive :=
  pp_include (Angle "LTable.h") ;;
  pp_include (Angle "LTableView.h") ;;
  pp_include (Angle "LTableMultiSelector.h") ;;
  pp_include (Angle "LTableMultiGeometry.h") ;;
  pp_include (Angle "LTableMonoGeometry.h") ;;
  pp_include (Angle "LGroupBox.h") ;;
  pp_include (Angle "LIconPane.h") ;;
  pp_include (Angle "PP_DebugMacros.h") ;;
  pp_include (Angle "LPopupButton.h") ;;
  pp_include (Angle "UNavServicesDialogs.h") ;;
  pp_include (Angle "UControlRegistry.h").

(** The header, lines 1-200. *)
Definition CommonMachOPrefix : directive :=
  mach_o_target ;;
  options ;;
  msl_and_math ;;
  do_debug_guards ;;
  macos_macros ;;
  debug_macros ;;
  pp_include (Angle "PP_Debug.h") ;;
  debug_new_leaks ;;
  class_headers ;;
  pp_include (Quoted "my_notation.h") ;;
  pp_define "_mac_gui_app" [].

(** Preprocessing the header on top of the macro table [m]: the state at
    the end of the header and the diagnostics reported on the way. *)
Definition run (m : macro_table) : pp_state * list diagnostic :=
  CommonMachOPrefix (PPState m [], []).

(** The macro table that reaches the guards of lines 54-60. *)
Definition guard_table (m : macro_table) : macro_table :=
  macros ((mach_o_target ;; options ;; msl_and_math) (PPState m [], [])).1.

(** The value that [_do_debug] has where the guards test it. *)
Definition do_debug_value (m : macro_table) : outcome :=
  eval_expr (guard_table m) [TId "_do_debug"].

(** Lines 65-177, what follows the guards. *)
Definition after_guards : directive :=
  macos_macros ;;
  debug_macros ;;
  pp_include (Angle "PP_Debug.h") ;;
  debug_new_leaks ;;
  class_headers ;;
  pp_include (Quoted "my_notation.h") ;;
  pp_define "_mac_gui_app" [].

(** The macro table after the events [t] on top of [m]. *)
Definition apply_event (m : macro_table) (ev : event) : macro_table :=
  match ev with
  | Defined x body => <[x := Object body]> m
  | Included h => included h m
  end.

Definition replay (m : macro_table) (t : list event) : macro_table :=
  foldl apply_event m t.

End Preprocessor.

(** ** The expansion of the header, configuration by configuration *)

Definition defines (m : macro_table) (x : string) : bool :=
  match m !! x with
  | Some _ => true
  | None => false
  end.

(** The definition of [x] that is in force after the events [t], if [t]
    has one. *)
Definition last_definition (x : string) (t : list event)
  : option (list token) :=
  foldl (fun acc ev =>
           match ev with
           | Defined y body => if decide (y = x) then Some body else acc
           | Included _ => acc
           end) None t.

Definition defined_by (t : list event) (x : string) : Prop :=
  exists body, Defined x body ∈ t.

Definition included_headers (t : list event) : list header_name :=
  omap (fun ev =>
          match ev with
          | Included h => Some h
          | Defined _ _ => None
          end) t.

(** The names that the events [t] define, in order. *)
Definition defined_names (t : list event) : list string :=
  omap (fun ev =>
          match ev with
          | Defined x _ => Some x
          | Included _ => None
          end) t.

(** The events of [t] before the first occurrence of [ev]. *)
Fixpoint events_before (ev : event) (t : list event) : list event :=
  match t with
  | [] => []
  | ev' :: t' => if decide (ev' = ev) then [] else ev' :: events_before ev t'
  end.

(** The [#error] messages among the diagnostics [ds]. *)
Definition error_directives (ds : list diagnostic) : list string :=
  omap (fun e =>
          match e with
          | ErrorDirective msg => Some msg
          | MalformedIf _ => None
          end) ds.

(** Lines 9-30. *)
Definition expansion_9_30 : list event :=
  [ Defined "PP_Target_Carbon" [TNum 1];
    Defined "PP_Target_Classic"
            [TLParen; TNot; TId "PP_Target_Carbon"; TRParen];
    Defined "TARGET_API_MAC_CARBON" [TId "PP_Target_Carbon"];
    Defined "TARGET_API_MAC_OS8" [TId "PP_Target_Classic"];
    Defined "TARGET_API_MAC_OSX" [TId "PP_Target_Carbon"];
    Defined "PP_Uses_PowerPlant_Namespace" [TNum 0];
    Defined "PP_Supports_Pascal_Strings" [TNum 1];
    Defined "PP_StdDialogs_Option" [TId "PP_StdDialogs_NavServicesOnly"];
    Defined "PP_Uses_Old_Integer_Types" [TNum 0];
    Defined "PP_Obsolete_AllowTargetSwitch" [TNum 0];
    Defined "PP_Obsolete_ThrowExceptionCode" [TNum 0];
    Defined "PP_Warn_Obsolete_Classes" [TNum 1];
    Defined "PP_Suppress_Notes_221" [TNum 1] ].

(** Lines 32-46; [fixeddecimal] tells whether [FIXEDDECIMAL] was defined
    before. *)
Definition expansion_32_46 (fixeddecimal : bool) : list event :=
  ([ Included (Angle "MSLCarbonPrefix.h"); Included (Angle "cmath");
     Included (Angle "fp.h"); Included (Angle "complex") ] ++
   (if fixeddecimal then [] else [ Defined "FIXEDDECIMAL" [TNum 1] ]) ++
   [ Defined "NO_BLOCKMOVE_INLINE" [TNum 1] ])%list.

(** Lines 65-79. *)
Definition expansion_65_79 : list event :=
  [ Defined "OLDROUTINENAMES" [TNum 0];
    Defined "OLDROUTINELOCATIONS" [TNum 0];
    Defined "SystemSevenOrLater" [TNum 1];
    Defined "PP_Obsolete_Constants" [TNum 0];
    Defined "PP_Obsolete_Stream_Creators" [TNum 0];
    Defined "PP_Obsolete_Array_API" [TNum 0] ].

(** Lines 81-119; [debug] tells which branch of [#if _do_debug] is
    taken. *)
Definition expansion_81_119 (debug : bool) : list event :=
  ((if debug then
      [ Defined "Debug_Throw" [];
        Defined "Debug_Signal" [];
        Defined "PP_DEBUG" [TNum 1];
        Defined "PP_SPOTLIGHT_SUPPORT" [TNum 1];
        Defined "PP_QC_SUPPORT" [TNum 0];
        Defined "PP_DEBUGNEW_SUPPORT" [TNum 0] ]
    else
      [ Defined "PP_DEBUG" [TNum 0];
        Defined "PP_SPOTLIGHT_SUPPORT" [TNum 0];
        Defined "PP_QC_SUPPORT" [TNum 0];
        Defined "PP_DEBUGNEW_SUPPORT" [TNum 0];
        Defined "DEBUG_NEW" [TId "DEBUG_NEW_OFF"] ]) ++
   [ Included (Angle "PP_Debug.h") ])%list.

(** Lines 121-155; [leaks] tells whether the group of lines 150-152 is
    processed. *)
Definition expansion_121_155 (leaks : bool) : list event :=
  if leaks then [ Included (Angle "new.h"); Defined "new" [TId "NEW"] ]
  else [].

(** Lines 160-171. *)
Definition widget_headers : list header_name :=
  [ Angle "LTable.h"; Angle "LTableView.h"; Angle "LTableMultiSelector.h";
    Angle "LTableMultiGeometry.h"; Angle "LTableMonoGeometry.h";
    Angle "LGroupBox.h"; Angle "LIconPane.h"; Angle "PP_DebugMacros.h";
    Angle "LPopupButton.h"; Angle "UNavServicesDialogs.h";
    Angle "UControlRegistry.h" ].

(** Lines 160-177. *)
Definition expansion_160_177 : list event :=
  ((Included <$> widget_headers) ++
   [ Included (Quoted "my_notation.h"); Defined "_mac_gui_app" [] ])%list.

(** The events up to the guards of lines 54-60. *)
Definition expansion_to_guards (fixeddecimal : bool) : list event :=
  (expansion_9_30 ++ expansion_32_46 fixeddecimal)%list.

(** The events up to the [#if] of line 121. *)
Definition expansion_to_149 (debug fixeddecimal : bool) : list event :=
  (expansion_to_guards fixeddecimal ++ expansion_65_79 ++
   expansion_81_119 debug)%list.

(** The events of a run: the branch of line 81, whether lines 150-152
    are processed, whether [FIXEDDECIMAL] was defined before. *)
Definition expansion (debug leaks fixeddecimal : bool) : list event :=
  (expansion_to_149 debug fixeddecimal ++ expansion_121_155 leaks ++
   expansion_160_177)%list.

(** The events that a run can go through after the guards. *)
Definition traces_after_guards : list (list event) :=
  (fun p : bool * bool =>
     (expansion_65_79 ++ expansion_81_119 p.1 ++ expansion_121_155 p.2 ++
      expansion_160_177)%list) <$>
  [ (false, false); (false, true); (true, false); (true, true) ].

(** The events that a run can go through. *)
Definition run_traces : list (list event) :=
  ((fun t => (expansion_to_guards false ++ t)%list) <$> traces_after_guards) ++
  ((fun t => (expansion_to_guards true ++ t)%list) <$> traces_after_guards).

(** The events of two groups in sequence: those of the first group, then
    those of the second. *)
Definition sequences (Ts1 Ts2 : list (list event)) : list (list event) :=
  T1 ← Ts1; (fun T2 => T1 ++ T2) <$> Ts2.

(** The events [t] without those of lines 150-152. *)
Definition without_new (t : list event) : list event :=
  filter (fun ev => ev ∉ [ Included (Angle "new.h"); Defined "new" [TId "NEW"] ])
         t.

(** What the guard of line 58 reports when [_do_debug] is the integer
    literal [d]. *)
Definition guard_reports (d : N) : list diagnostic :=
  if (wrap d =? 0) || (wrap d =? 1) then []
  else [ ErrorDirective "_do_debug is not zero or one" ].

Section Configurations.

Variable included : header_name -> macro_table -> macro_table.
Variable beyond : nat -> macro_table -> list token -> option N.

(** The macro table in which a debug build reaches the [#if] of line
    149: after lines 9-119, [PP_Debug.h] included. *)
Definition table_at_149 (m : macro_table) : macro_table :=
  replay included m (expansion_to_149 true (defines m "FIXEDDECIMAL")).

(** The verdict on line 149 there. *)
Definition leaks_condition (m : macro_table) : option N :=
  controlling beyond 149 (table_at_149 m) debug_new_leaks_condition.

(** The events and the diagnostics of the run on [m] when [_do_debug] is
    defined as the integer literal [d] in [m]. *)
Definition configuration_outcome (m : macro_table) (d : N)
  : list event * list diagnostic :=
  if wrap d =? 0 then
    (expansion false false (defines m "FIXEDDECIMAL"), guard_reports d)
  else
    match leaks_condition m with
    | Some v =>
        (expansion true (negb (v =? 0)) (defines m "FIXEDDECIMAL"),
         guard_reports d)
    | None =>
        (expansion true false (defines m "FIXEDDECIMAL"),
         (guard_reports d ++ [MalformedIf 149])%list)
    end.

(** The directive [d] goes through the events of one of the lists
    [Ts]. *)
Definition emits (d : directive) (Ts : list (list event)) : Prop :=
  forall c, exists T,
    T ∈ Ts /\
    (d c).1 = PPState (replay included (macros c.1) T) (trace c.1 ++ T).

End Configurations.

(** A sample of what the foreign headers could do: [fp.h] brings a
    decimal-format constant, the debugging header the DebugNew levels and
    a default for [DEBUG_NEW] when it is not defined. *)
Definition sample_included (h : header_name) (m : macro_table) : macro_table :=
  if decide (h = Angle "fp.h") then
    <["FLOATDECIMAL" := Object [TNum 0]]> m
  else if decide (h = Angle "PP_Debug.h") then
    <["DEBUG_NEW_LEAKS" := Object [TNum 2]]>
      (<["DEBUG_NEW_OFF" := Object [TNum 0]]>
         (match m !! "DEBUG_NEW" with
          | Some _ => m
          | None => <["DEBUG_NEW" := Object [TId "DEBUG_NEW_LEAKS"]]> m
          end))
  else m.

(** A sample preprocessor that rejects every [#if] line it is asked about
    beyond the modelled tokens. *)
Definition sample_beyond (line : nat) (m : macro_table) (ts : list token)
  : option N := None.

Definition debug_build : macro_table := {[ "_do_debug" := Object [TNum 1] ]}.
Definition final_build : macro_table := {[ "_do_debug" := Object [TNum 0] ]}.

(** [#define _do_debug], with nothing after the name. *)
Definition valueless_build : macro_table := {[ "_do_debug" := Object [] ]}.

(** [#define _do_debug 0 && 0]. *)
Definition conjunction_build : macro_table :=
  {[ "_do_debug" := Object [TNum 0; TAndAnd; TNum 0] ]}.

(** The debug build after [#define DEBUG_NEW 1 || 2], with
    [DEBUG_NEW_LEAKS] defined as 2. *)
Definition debug_build_compound_debug_new : macro_table :=
  <["DEBUG_NEW" := Object [TNum 1; TOrOr; TNum 2]]>
    (<["DEBUG_NEW_LEAKS" := Object [TNum 2]]> debug_build).

(** The debug build after [#define NEW 5] and
    [#define DEBUG_NEW 1 || ! new || 0]. *)
Definition debug_build_debug_new_reads_new : macro_table :=
  <["DEBUG_NEW" := Object [TNum 1; TOrOr; TNot; TId "new"; TOrOr; TNum 0]]>
    (<["NEW" := Object [TNum 5]]> debug_build).

(** ** The macros of the header *)

(** The names the header defines, and [_do_debug], which it tests. *)
Definition prefix_macros : list string :=
  [ "_do_debug";
    "PP_Target_Carbon"; "PP_Target_Classic";
    "TARGET_API_MAC_CARBON"; "TARGET_API_MAC_OS8"; "TARGET_API_MAC_OSX";
    "PP_Uses_PowerPlant_Namespace"; "PP_Supports_Pascal_Strings";
    "PP_StdDialogs_Option"; "PP_Uses_Old_Integer_Types";
    "PP_Obsolete_AllowTargetSwitch"; "PP_Obsolete_ThrowExceptionCode";
    "PP_Warn_Obsolete_Classes"; "PP_Suppress_Notes_221";
    "FIXEDDECIMAL"; "NO_BLOCKMOVE_INLINE";
    "OLDROUTINENAMES"; "OLDROUTINELOCATIONS"; "SystemSevenOrLater";
    "PP_Obsolete_Constants"; "PP_Obsolete_Stream_Creators";
    "PP_Obsolete_Array_API";
    "Debug_Throw"; "Debug_Signal";
    "PP_DEBUG"; "PP_SPOTLIGHT_SUPPORT"; "PP_QC_SUPPORT";
    "PP_DEBUGNEW_SUPPORT"; "DEBUG_NEW";
    "_mac_gui_app" ].

(** The two macros that the header tests and that it does not define, or
    not always. *)
Definition control_macros : list string := [ "_do_debug"; "FIXEDDECIMAL" ].

(** The assumption on the included headers.  They leave [_do_debug] and
    [FIXEDDECIMAL] as they are, and they neither redefine nor undefine a
    macro of this header that is defined when they are processed.  (They
    may give a default to one that is not, as with [#ifndef].) *)
Record keeps_prefix_macros
    (included : header_name -> macro_table -> macro_table) : Prop := {
  keeps_control :
    forall h (m : macro_table) x,
      x ∈ control_macros -> included h m !! x = m !! x;
  keeps_defined :
    forall h (m : macro_table) x,
      x ∈ prefix_macros -> is_Some (m !! x) -> included h m !! x = m !! x
}.

(** [_do_debug] is defined as the integer literal [d]. *)
Definition configured (m : macro_table) (d : N) : Prop :=
  m !! "_do_debug" = Some (Object [TNum d]).

(** The two supported configurations. *)
Definition supported (m : macro_table) : Prop :=
  configured m 0 \/ configured m 1.

(** [x] evaluates to a value that is not 0. *)
Definition enabled (m : macro_table) (x : string) : Prop :=
  exists v, eval_expr m [TId x] = Value v /\ v <> 0.

(** The macros that the rest of the code base expects from the header. *)
Definition downstream_contract : list string :=
  [ "PP_Target_Carbon"; "TARGET_API_MAC_OSX"; "PP_DEBUG";
    "PP_SPOTLIGHT_SUPPORT"; "_mac_gui_app" ].

(** The directive [d] reports no [#error]. *)
Definition never_errors (d : directive) : Prop :=
  forall c, error_directives (d c).2 = error_directives c.2.

(** The directive [d] leaves the macro [x] as it is. *)
Definition preserves (x : string) (d : directive) : Prop :=
  forall c, macros (d c).1 !! x = macros c.1 !! x.

(** Lines 9, 21-30, 46 and 65-73: the macros that the header defines as
    a number outside any conditional, in the order of the header. *)
Definition unconditional_options : list (string * N) :=
  [ ("PP_Target_Carbon", 1);
    ("PP_Uses_PowerPlant_Namespace", 0);
    ("PP_Supports_Pascal_Strings", 1);
    ("PP_Uses_Old_Integer_Types", 0);
    ("PP_Obsolete_AllowTargetSwitch", 0);
    ("PP_Obsolete_ThrowExceptionCode", 0);
    ("PP_Warn_Obsolete_Classes", 1);
    ("PP_Suppress_Notes_221", 1);
    ("NO_BLOCKMOVE_INLINE", 1);
    ("OLDROUTINENAMES", 0);
    ("OLDROUTINELOCATIONS", 0);
    ("SystemSevenOrLater", 1);
    ("PP_Obsolete_Constants", 0);
    ("PP_Obsolete_Stream_Creators", 0);
    ("PP_Obsolete_Array_API", 0) ].

Section Guard.

Variable beyond : nat -> macro_table -> list token -> option N.

(** Lines 58-60 alone, without the [#ifndef] of lines 54-56. *)
Definition zero_or_one_guard : directive :=
  pp_if beyond 58 not_zero_or_one
        (pp_error "_do_debug is not zero or one")
        pp_skip.

End Guard.

(** ** Macro replacement: the equations of [expand] *)

(** The fuel of [expand] is exactly what one replacement step needs: the
    step on an object-like macro continues with [expand] on the table
    without that macro. *)
Lemma expand_unfold (m : macro_table) ts :
  expand m ts = flat_map (expand_token m) ts.
Proof.
  unfold expand. destruct (size m) as [|n] eqn:Hsize.
  - apply map_size_empty_inv in Hsize as ->. cbn [expand_fuel].
    induction ts as [|t ts IH]; [reflexivity|].
    cbn [flat_map]. rewrite <- IH.
    destruct t as [n|x| | | | | | |s]; try reflexivity.
    cbn [expand_token]. rewrite lookup_empty. by destruct (reserved x).
  - cbn [expand_fuel]. apply flat_map_ext. intros [k|x| | | | | | |s];
      try reflexivity.
    cbn [expand_token]. destruct (reserved x); [reflexivity|].
    destruct (m !! x) as [[body|ps body]|] eqn:Hx; try reflexivity.
    unfold expand. rewrite map_size_delete, Hx, Hsize. reflexivity.
Qed.

Lemma expand_cons (m : macro_table) t ts :
  expand m (t :: ts) = expand_token m t ++ expand m ts.
Proof. by rewrite !expand_unfold. Qed.

Lemma expand_nil (m : macro_table) : expand m [] = [].
Proof. by rewrite expand_unfold. Qed.

Lemma expand_app (m : macro_table) ts1 ts2 :
  expand m (ts1 ++ ts2) = expand m ts1 ++ expand m ts2.
Proof. rewrite !expand_unfold. apply flat_map_app. Qed.

(** Fuel beyond the size of the table changes nothing: replacement never
    stops for lack of fuel. *)
Lemma expand_fuel_enough n (m : macro_table) ts :
  (size m <= n)%nat -> expand_fuel n m ts = expand m ts.
Proof.
  revert m ts. induction n as [|n IH]; intros m ts Hn.
  - unfold expand. by replace (size m) with 0%nat by lia.
  - rewrite expand_unfold. cbn [expand_fuel]. apply flat_map_ext.
    intros [k|x| | | | | | |s]; try reflexivity.
    cbn [expand_token]. destruct (reserved x); [reflexivity|].
    destruct (m !! x) as [[body|ps body]|] eqn:Hx; try reflexivity.
    apply IH. rewrite map_size_delete, Hx.
    assert (size m <> 0)%nat by (apply (map_size_ne_0_lookup_2 m x); eauto).
    lia.
Qed.

Lemma expand_token_literal (m : macro_table) x n :
  reserved x = false -> m !! x = Some (Object [TNum n]) ->
  expand_token m (TId x) = [TNum n].
Proof.
  intros Hr Hx. cbn [expand_token]. rewrite Hr, Hx.
  by rewrite expand_unfold.
Qed.

Lemma expand_token_empty (m : macro_table) x :
  reserved x = false -> m !! x = Some (Object []) ->
  expand_token m (TId x) = [].
Proof. intros Hr Hx. cbn [expand_token]. by rewrite Hr, Hx, expand_nil. Qed.

Lemma expand_token_undefined (m : macro_table) x :
  m !! x = None -> expand_token m (TId x) = [TId x].
Proof. intros Hx. cbn [expand_token]. rewrite Hx. by destruct (reserved x). Qed.

Lemma modelled_undefined (m : macro_table) x :
  reserved x = false -> m !! x = None -> modelled m (TId x) = true.
Proof. intros Hr Hx. cbn [modelled]. by rewrite Hr, Hx. Qed.

(** ** Evaluation: literals, and names that are not macros *)

Lemma wrap_small n : n < 2 ^ 64 -> wrap n = n.
Proof. apply N.mod_small. Qed.

Lemma wrap_0 : wrap 0 = 0.
Proof. reflexivity. Qed.

Lemma wrap_1 : wrap 1 = 1.
Proof. reflexivity. Qed.

Lemma wrap_wrap n : wrap (wrap n) = wrap n.
Proof. unfold wrap. apply N.Div0.mod_mod. Qed.

#[global] Arguments wrap : simpl never.

Lemma eval_expr_tokens (m : macro_table) ts ts' :
  expand m ts = ts' -> forallb (modelled m) ts' = true ->
  eval_expr m ts =
  match eval_tokens ts' with
  | Some v => Value v
  | None => Rejected
  end.
Proof. intros Hts Hall. unfold eval_expr. by rewrite Hts, Hall. Qed.

Lemma eval_expr_num (m : macro_table) n : eval_expr m [TNum n] = Value (wrap n).
Proof.
  rewrite (eval_expr_tokens m _ [TNum n]); [reflexivity| |reflexivity].
  by rewrite expand_unfold.
Qed.

Lemma eval_expr_literal (m : macro_table) x n :
  reserved x = false -> m !! x = Some (Object [TNum n]) ->
  eval_expr m [TId x] = Value (wrap n).
Proof.
  intros Hr Hx. rewrite (eval_expr_tokens m _ [TNum n]); [reflexivity| |reflexivity].
  by rewrite expand_cons, expand_nil, (expand_token_literal m x n).
Qed.

Lemma eval_expr_undefined (m : macro_table) x :
  reserved x = false -> m !! x = None -> eval_expr m [TId x] = Value 0.
Proof.
  intros Hr Hx. rewrite (eval_expr_tokens m _ [TId x]); [reflexivity| |].
  - by rewrite expand_cons, expand_nil, expand_token_undefined.
  - cbn [forallb]. by rewrite modelled_undefined.
Qed.

Lemma eval_expr_empty (m : macro_table) x :
  reserved x = false -> m !! x = Some (Object []) ->
  eval_expr m [TId x] = Rejected.
Proof.
  intros Hr Hx. rewrite (eval_expr_tokens m _ []); [reflexivity| |reflexivity].
  by rewrite expand_cons, expand_nil, expand_token_empty.
Qed.

(** Line 58 when [_do_debug] is an integer literal, when it is not
    defined, and when it is defined with nothing after its name. *)
Lemma not_zero_or_one_literal (m : macro_table) d :
  m !! "_do_debug" = Some (Object [TNum d]) ->
  eval_expr m not_zero_or_one =
  Value (truth (negb ((wrap d =? 0) || (wrap d =? 1)))).
Proof.
  intros Hd.
  rewrite (eval_expr_tokens m _
             [ TNot; TLParen; TNum d; TEqEq; TNum 0; TOrOr;
               TNum d; TEqEq; TNum 1; TRParen ]); [| |reflexivity].
  - cbn. rewrite wrap_0, wrap_1.
    by destruct (wrap d =? 0), (wrap d =? 1).
  - unfold not_zero_or_one. rewrite !expand_cons, expand_nil.
    by rewrite !(expand_token_literal m "_do_debug" d).
Qed.

Lemma not_zero_or_one_undefined (m : macro_table) :
  m !! "_do_debug" = None -> eval_expr m not_zero_or_one = Value 0.
Proof.
  intros Hd.
  rewrite (eval_expr_tokens m _ not_zero_or_one); [reflexivity| |].
  - unfold not_zero_or_one. rewrite !expand_cons, expand_nil.
    by rewrite !(expand_token_undefined m "_do_debug").
  - cbn [not_zero_or_one forallb]. by rewrite !modelled_undefined.
Qed.

Lemma not_zero_or_one_empty (m : macro_table) :
  m !! "_do_debug" = Some (Object []) -> eval_expr m not_zero_or_one = Rejected.
Proof.
  intros Hd.
  rewrite (eval_expr_tokens m _
             [ TNot; TLParen; TEqEq; TNum 0; TOrOr; TEqEq; TNum 1; TRParen ]);
    [reflexivity| |reflexivity].
  unfold not_zero_or_one. rewrite !expand_cons, expand_nil.
  by rewrite !(expand_token_empty m "_do_debug").
Qed.

(** Line 149 where [PP_DEBUGNEW_SUPPORT] is 0 and each of [DEBUG_NEW] and
    [DEBUG_NEW_LEAKS] stands for one operand: the value is 0. *)
Lemma leaks_condition_operands (m : macro_table) t1 t2 :
  m !! "PP_DEBUGNEW_SUPPORT" = Some (Object [TNum 0]) ->
  expand m [TId "DEBUG_NEW"] = [t1] ->
  expand m [TId "DEBUG_NEW_LEAKS"] = [t2] ->
  operand m t1 = true -> operand m t2 = true ->
  eval_expr m debug_new_leaks_condition = Value 0.
Proof.
  intros Hs H1 H2 Ho1 Ho2.
  rewrite expand_cons, expand_nil, app_nil_r in H1, H2.
  rewrite (eval_expr_tokens m _ [TNum 0; TAndAnd; t1; TEqEq; t2]).
  - destruct t1, t2; try discriminate Ho1; try discriminate Ho2; cbn;
      rewrite ?wrap_0; by rewrite ?andb_false_l.
  - unfold debug_new_leaks_condition. rewrite !expand_cons, expand_nil.
    by rewrite (expand_token_literal m "PP_DEBUGNEW_SUPPORT" 0), H1, H2.
  - cbn [forallb modelled]. destruct t1, t2;
      try discriminate Ho1; try discriminate Ho2;
      cbn [operand] in Ho1, Ho2; by rewrite ?Ho1, ?Ho2.
Qed.

(** ** Running directives: one equation per directive *)

Section Execution.

Variable included : header_name -> macro_table -> macro_table.
Variable beyond : nat -> macro_table -> list token -> option N.

Lemma exec_end (d : directive) c : d c = (d ;; pp_skip) c.
Proof. reflexivity. Qed.

Lemma exec_seq_assoc (d1 d2 d3 : directive) c :
  ((d1 ;; d2) ;; d3) c = (d1 ;; d2 ;; d3) c.
Proof. reflexivity. Qed.

Lemma exec_skip (d : directive) c : (pp_skip ;; d) c = d c.
Proof. reflexivity. Qed.

Lemma exec_define x body (d : directive) m t ds :
  (pp_define x body ;; d) (PPState m t, ds) =
  d (PPState (<[x := Object body]> m) (t ++ [Defined x body]), ds).
Proof. reflexivity. Qed.

Lemma exec_include h (d : directive) m t ds :
  (pp_include included h ;; d) (PPState m t, ds) =
  d (PPState (included h m) (t ++ [Included h]), ds).
Proof. reflexivity. Qed.

(** An [#error] is reported, and the run goes on. *)
Lemma exec_error msg (d : directive) s ds :
  (pp_error msg ;; d) (s, ds) = d (s, ds ++ [ErrorDirective msg]).
Proof. reflexivity. Qed.

Lemma exec_ifndef_undefined x (body d : directive) m t ds :
  m !! x = None ->
  (pp_ifndef x body ;; d) (PPState m t, ds) = (body ;; d) (PPState m t, ds).
Proof. intros Hx. unfold pp_seq, pp_ifndef. cbn [macros fst]. by rewrite Hx. Qed.

Lemma exec_ifndef_defined x (body d : directive) m t ds r :
  m !! x = Some r ->
  (pp_ifndef x body ;; d) (PPState m t, ds) = d (PPState m t, ds).
Proof. intros Hx. unfold pp_seq, pp_ifndef. cbn [macros fst]. by rewrite Hx. Qed.

Lemma controlling_value line (m : macro_table) ts v :
  eval_expr m ts = Value v -> controlling beyond line m ts = Some v.
Proof. intros H. unfold controlling. by rewrite H. Qed.

Lemma controlling_rejected line (m : macro_table) ts :
  eval_expr m ts = Rejected -> controlling beyond line m ts = None.
Proof. intros H. unfold controlling. by rewrite H. Qed.

Lemma exec_if_value line c (then_ else_ d : directive) m t ds v :
  controlling beyond line m c = Some v ->
  (pp_if beyond line c then_ else_ ;; d) (PPState m t, ds) =
  if v =? 0 then (else_ ;; d) (PPState m t, ds)
  else (then_ ;; d) (PPState m t, ds).
Proof.
  intros Hc. unfold pp_seq, pp_if. cbn [macros fst]. rewrite Hc.
  destruct (v =? 0); reflexivity.
Qed.

(** [#if 0]. *)
Lemma exec_if_0 line (then_ else_ d : directive) m t ds :
  (pp_if beyond line [TNum 0] then_ else_ ;; d) (PPState m t, ds) =
  (else_ ;; d) (PPState m t, ds).
Proof.
  by rewrite (exec_if_value line _ _ _ _ _ _ _ 0)
    by (apply controlling_value, eval_expr_num).
Qed.

(** An [#if] that the preprocessor rejects is reported, its group is
    skipped, and the run goes on with the [#else] group. *)
Lemma exec_if_rejected line c (then_ else_ d : directive) m t ds :
  controlling beyond line m c = None ->
  (pp_if beyond line c then_ else_ ;; d) (PPState m t, ds) =
  (else_ ;; d) (PPState m t, ds ++ [MalformedIf line]).
Proof. intros Hc. unfold pp_seq, pp_if. cbn [macros fst]. by rewrite Hc. Qed.

End Execution.

(** Membership of a literal name in one of the lists of names above. *)
Ltac in_list :=
  apply (bool_decide_unpack _); vm_compute; exact I.

(** Lookup of a literal name in a table built by the header. *)
Ltac pp_lookup Hkeep :=
  repeat first
    [ rewrite lookup_insert_eq
    | rewrite lookup_insert_ne by discriminate
    | rewrite lookup_delete_ne by discriminate
    | rewrite (keeps_control _ Hkeep) by in_list
    | rewrite (keeps_defined _ Hkeep)
        by (lazymatch goal with
            | |- is_Some _ => pp_lookup Hkeep; by eexists
            | |- _ => in_list
            end) ].

(** ** The table after a list of events *)

Section Expansion.

Variable included : header_name -> macro_table -> macro_table.
Hypothesis Hkeep : keeps_prefix_macros included.

Lemma replay_app (m : macro_table) t1 t2 :
  replay included (replay included m t1) t2 = replay included m (t1 ++ t2).
Proof. unfold replay. by rewrite foldl_app. Qed.

Lemma replay_snoc (m : macro_table) t ev :
  replay included m (t ++ [ev]) = apply_event included (replay included m t) ev.
Proof. unfold replay. by rewrite foldl_app. Qed.

Lemma last_definition_snoc x t ev :
  last_definition x (t ++ [ev]) =
  match ev with
  | Defined y body => if decide (y = x) then Some body else last_definition x t
  | Included _ => last_definition x t
  end.
Proof. unfold last_definition. by rewrite foldl_app. Qed.

(** [_do_debug] and [FIXEDDECIMAL] have their last definition among the
    events, or else the one they had before. *)
Lemma replay_lookup_control (t : list event) (m : macro_table) x :
  x ∈ control_macros ->
  replay included m t !! x =
  from_option (fun body => Some (Object body)) (m !! x) (last_definition x t).
Proof.
  intros Hx. induction t as [|ev t IH] using rev_ind; [reflexivity|].
  rewrite replay_snoc, last_definition_snoc.
  destruct ev as [y body|h]; cbn [apply_event].
  - destruct (decide (y = x)) as [->|Hne].
    + by rewrite lookup_insert_eq.
    + by rewrite lookup_insert_ne.
  - by rewrite (keeps_control _ Hkeep).
Qed.

(** A macro of the header that the events define has its last definition
    among them. *)
Lemma replay_lookup_defined (t : list event) (m : macro_table) x body :
  x ∈ prefix_macros ->
  last_definition x t = Some body ->
  replay included m t !! x = Some (Object body).
Proof.
  intros Hx. induction t as [|ev t IH] using rev_ind; [done|].
  rewrite replay_snoc, last_definition_snoc.
  destruct ev as [y body'|h]; cbn [apply_event].
  - destruct (decide (y = x)) as [->|Hne].
    + intros [= ->]. by rewrite lookup_insert_eq.
    + intros Hlast. by rewrite lookup_insert_ne, IH.
  - intros Hlast. rewrite (keeps_defined _ Hkeep), IH; by eauto.
Qed.

End Expansion.

(** ** Events and definitions *)

Lemma defined_by_last t x : defined_by t x <-> is_Some (last_definition x t).
Proof.
  unfold defined_by. induction t as [|ev t IH] using rev_ind.
  - split; [intros [r Hr]; by apply elem_of_nil in Hr | by intros [r Hr]].
  - rewrite last_definition_snoc. split.
    + intros [r Hr]. apply elem_of_app in Hr as [Hr|Hr].
      * destruct ev as [y r'|h]; [case_decide; [eauto|]|]; apply IH; eauto.
      * apply list_elem_of_singleton in Hr as <-. by rewrite decide_True.
    + destruct ev as [y r'|h].
      * case_decide as Hy.
        -- intros _. exists r'. subst y. apply elem_of_app. right.
           by apply list_elem_of_singleton.
        -- intros [r Hr]%IH. exists r. apply elem_of_app. by left.
      * intros [r Hr]%IH. exists r. apply elem_of_app. by left.
Qed.

Lemma error_directives_app ds1 ds2 :
  error_directives (ds1 ++ ds2) = error_directives ds1 ++ error_directives ds2.
Proof. unfold error_directives. apply omap_app. Qed.

Lemma error_directive_elem msg ds :
  ErrorDirective msg ∈ ds <-> msg ∈ error_directives ds.
Proof.
  unfold error_directives. rewrite list_elem_of_omap. split.
  - intros H. by exists (ErrorDirective msg).
  - intros ([msg'|line] & H & [= <-]). exact H.
Qed.

(** ** What a directive cannot do, and the events it can go through *)

Section Frames.

Variable included : header_name -> macro_table -> macro_table.
Variable beyond : nat -> macro_table -> list token -> option N.
Hypothesis Hkeep : keeps_prefix_macros included.

Lemma never_errors_seq d1 d2 :
  never_errors d1 -> never_errors d2 -> never_errors (d1 ;; d2).
Proof. intros H1 H2 c. unfold pp_seq. by rewrite H2, H1. Qed.

Lemma never_errors_define x body : never_errors (pp_define x body).
Proof. by intros c. Qed.

Lemma never_errors_include h : never_errors (pp_include included h).
Proof. by intros c. Qed.

Lemma never_errors_skip : never_errors pp_skip.
Proof. by intros c. Qed.

Lemma never_errors_if line cond d1 d2 :
  never_errors d1 -> never_errors d2 ->
  never_errors (pp_if beyond line cond d1 d2).
Proof.
  intros H1 H2 c. unfold pp_if.
  destruct (controlling beyond line (macros c.1) cond) as [v|].
  - destruct (v =? 0); [apply H2 | apply H1].
  - rewrite H2. unfold pp_report. cbn [snd].
    by rewrite error_directives_app, app_nil_r.
Qed.

Lemma never_errors_ifndef x d : never_errors d -> never_errors (pp_ifndef x d).
Proof.
  intros H c. unfold pp_ifndef.
  destruct (macros c.1 !! x); [done | apply H].
Qed.

Lemma preserves_seq x d1 d2 :
  preserves x d1 -> preserves x d2 -> preserves x (d1 ;; d2).
Proof. intros H1 H2 c. unfold pp_seq. by rewrite H2, H1. Qed.

Lemma preserves_define x y body : y <> x -> preserves x (pp_define y body).
Proof. intros Hne c. cbn. by rewrite lookup_insert_ne. Qed.

Lemma preserves_include x h :
  x ∈ control_macros -> preserves x (pp_include included h).
Proof. intros Hx c. cbn. by rewrite (keeps_control _ Hkeep). Qed.

Lemma preserves_skip x : preserves x pp_skip.
Proof. by intros c. Qed.

Lemma preserves_error x msg : preserves x (pp_error msg).
Proof. by intros c. Qed.

Lemma preserves_if x line cond d1 d2 :
  preserves x d1 -> preserves x d2 ->
  preserves x (pp_if beyond line cond d1 d2).
Proof.
  intros H1 H2 c. unfold pp_if.
  destruct (controlling beyond line (macros c.1) cond) as [v|].
  - destruct (v =? 0); [apply H2 | apply H1].
  - by rewrite H2.
Qed.

Lemma preserves_ifndef x y d : preserves x d -> preserves x (pp_ifndef y d).
Proof.
  intros H c. unfold pp_ifndef.
  destruct (macros c.1 !! y); [done | apply H].
Qed.

(** The events of a group, from the events of its directives. *)
Lemma emits_mono d Ts Ts' :
  emits included d Ts -> Forall (fun T => T ∈ Ts') Ts -> emits included d Ts'.
Proof.
  intros H Hsub c. destruct (H c) as (T & HT & Hc). exists T.
  split; [|exact Hc]. rewrite Forall_forall in Hsub. by apply Hsub.
Qed.

Lemma emits_skip : emits included pp_skip [[]].
Proof.
  intros [[m t] ds]. exists []. split; [by left|].
  cbn. by rewrite app_nil_r.
Qed.

Lemma emits_error msg : emits included (pp_error msg) [[]].
Proof.
  intros [[m t] ds]. exists []. split; [by left|].
  cbn. by rewrite app_nil_r.
Qed.

Lemma emits_define x body : emits included (pp_define x body) [[Defined x body]].
Proof. intros [[m t] ds]. exists [Defined x body]. split; [by left | done]. Qed.

Lemma emits_include h : emits included (pp_include included h) [[Included h]].
Proof. intros [[m t] ds]. exists [Included h]. split; [by left | done]. Qed.

Lemma emits_seq d1 d2 Ts1 Ts2 :
  emits included d1 Ts1 -> emits included d2 Ts2 ->
  emits included (d1 ;; d2) (sequences Ts1 Ts2).
Proof.
  intros H1 H2 c. unfold pp_seq.
  destruct (H1 c) as (T1 & HT1 & Hc1).
  destruct (H2 (d1 c)) as (T2 & HT2 & Hc2).
  exists (T1 ++ T2). split.
  - unfold sequences. apply list_elem_of_bind. exists T1. split; [|exact HT1].
    apply list_elem_of_fmap. by exists T2.
  - rewrite Hc2, Hc1. cbn [macros trace].
    by rewrite (replay_app included), (assoc_L (++)).
Qed.

Lemma emits_if line cond d1 d2 Ts1 Ts2 :
  emits included d1 Ts1 -> emits included d2 Ts2 ->
  emits included (pp_if beyond line cond d1 d2) (Ts1 ++ Ts2).
Proof.
  intros H1 H2 c. unfold pp_if.
  destruct (controlling beyond line (macros c.1) cond) as [v|].
  - destruct (v =? 0).
    + destruct (H2 c) as (T & HT & Hc). exists T.
      split; [apply elem_of_app; by right | exact Hc].
    + destruct (H1 c) as (T & HT & Hc). exists T.
      split; [apply elem_of_app; by left | exact Hc].
  - destruct (H2 (pp_report (MalformedIf line) c)) as (T & HT & Hc). exists T.
    split; [apply elem_of_app; by right | exact Hc].
Qed.

Lemma emits_if_0 line d1 d2 Ts2 :
  emits included d2 Ts2 ->
  emits included (pp_if beyond line [TNum 0] d1 d2) Ts2.
Proof.
  intros H2 c. unfold pp_if.
  rewrite (controlling_value beyond line _ _ 0) by apply eval_expr_num.
  apply H2.
Qed.

Lemma emits_ifndef x d Ts :
  emits included d Ts -> emits included (pp_ifndef x d) (Ts ++ [[]]).
Proof.
  intros H c. unfold pp_ifndef. destruct (macros c.1 !! x).
  - destruct (emits_skip c) as (T & HT & Hc). exists T.
    split; [apply elem_of_app; by right | exact Hc].
  - destruct (H c) as (T & HT & Hc). exists T.
    split; [apply elem_of_app; by left | exact Hc].
Qed.

End Frames.

Create HintDb pp discriminated.

#[global] Hint Resolve never_errors_seq never_errors_define
  never_errors_include never_errors_skip never_errors_if
  never_errors_ifndef : pp.

#[global] Hint Resolve preserves_seq preserves_define preserves_include
  preserves_skip preserves_error preserves_if preserves_ifndef : pp.

#[global] Hint Extern 1 (_ <> _) => discriminate : pp.
#[global] Hint Extern 1 (_ ∈ control_macros) => in_list : pp.

(** The events of a group of directives, directive by directive. *)
Ltac pp_emits :=
  repeat first
    [ apply emits_seq
    | apply emits_define
    | apply emits_include
    | apply emits_error
    | apply emits_skip
    | apply emits_if_0
    | apply emits_ifndef
    | apply emits_if ].

Ltac decided := apply (bool_decide_unpack _); vm_compute; exact I.

(** ** The header run group by group *)

Ltac pp_straight included beyond :=
  repeat first
    [ rewrite exec_seq_assoc
    | rewrite exec_define
    | rewrite (exec_include included)
    | rewrite exec_error
    | rewrite (exec_if_0 beyond)
    | rewrite exec_skip ].

Section Groups.

Variable included : header_name -> macro_table -> macro_table.
Variable beyond : nat -> macro_table -> list token -> option N.
Hypothesis Hkeep : keeps_prefix_macros included.

(** Lines 9-46 report nothing, whatever the table. *)
Lemma exec_to_guards (d : directive) (m : macro_table) :
  (mach_o_target ;; options ;; msl_and_math included ;; d) (PPState m [], []) =
  d (PPState (replay included m (expansion_to_guards (defines m "FIXEDDECIMAL")))
             (expansion_to_guards (defines m "FIXEDDECIMAL")), []).
Proof.
  unfold mach_o_target, options, msl_and_math, fixeddecimal_guard, defines.
  pp_straight included beyond.
  destruct (m !! "FIXEDDECIMAL") as [r|] eqn:HF.
  - erewrite exec_ifndef_defined by (pp_lookup Hkeep; exact HF).
    pp_straight included beyond. reflexivity.
  - rewrite exec_ifndef_undefined by (pp_lookup Hkeep; exact HF).
    pp_straight included beyond. reflexivity.
Qed.

Lemma guard_table_eq (m : macro_table) :
  guard_table included m =
  replay included m (expansion_to_guards (defines m "FIXEDDECIMAL")).
Proof.
  unfold guard_table.
  change ((mach_o_target ;; options ;; msl_and_math included) (PPState m [], []))
    with ((mach_o_target ;; options ;; msl_and_math included ;; pp_skip)
            (PPState m [], [])).
  by rewrite exec_to_guards.
Qed.

(** The events of lines 9-46 leave [_do_debug] as it was. *)
Lemma guard_table_do_debug (m : macro_table) :
  guard_table included m !! "_do_debug" = m !! "_do_debug".
Proof.
  rewrite guard_table_eq, (replay_lookup_control included Hkeep) by in_list.
  by destruct (defines m "FIXEDDECIMAL").
Qed.

(** Lines 54-60 change neither the table nor the events; they report. *)
Lemma exec_guards (d : directive) (m : macro_table) t ds :
  (do_debug_guards beyond ;; d) (PPState m t, ds) =
  d (PPState m t,
     ds ++
     (if defines m "_do_debug" then []
      else [ErrorDirective "_do_debug is not yet #defined"]) ++
     match controlling beyond 58 m not_zero_or_one with
     | Some v =>
         if v =? 0 then []
         else [ErrorDirective "_do_debug is not zero or one"]
     | None => [MalformedIf 58]
     end).
Proof.
  unfold do_debug_guards, defines. rewrite exec_seq_assoc.
  destruct (m !! "_do_debug") as [r|] eqn:Hd.
  - erewrite exec_ifndef_defined by exact Hd.
    destruct (controlling beyond 58 m not_zero_or_one) as [v|] eqn:Hc.
    + rewrite (exec_if_value beyond 58 _ _ _ _ _ _ _ v Hc).
      destruct (v =? 0); pp_straight included beyond;
        by rewrite ?app_nil_r.
    + by rewrite (exec_if_rejected beyond 58 _ _ _ _ _ _ _ Hc).
  - rewrite exec_ifndef_undefined by exact Hd. rewrite exec_error.
    destruct (controlling beyond 58 m not_zero_or_one) as [v|] eqn:Hc.
    + rewrite (exec_if_value beyond 58 _ _ _ _ _ _ _ v Hc).
      destruct (v =? 0); pp_straight included beyond;
        by rewrite <- ?(assoc_L (++)), ?app_nil_r.
    + rewrite (exec_if_rejected beyond 58 _ _ _ _ _ _ _ Hc).
      by rewrite <- (assoc_L (++)).
Qed.

(** *** The whole header *)

Lemma run_unfold (m : macro_table) :
  run included beyond m =
  (do_debug_guards beyond ;; after_guards included beyond)
    (PPState (replay included m (expansion_to_guards (defines m "FIXEDDECIMAL")))
             (expansion_to_guards (defines m "FIXEDDECIMAL")), []).
Proof.
  change (run included beyond m) with
    ((mach_o_target ;; options ;; msl_and_math included ;;
      do_debug_guards beyond ;; after_guards included beyond)
       (PPState m [], [])).
  apply exec_to_guards.
Qed.

(** Lines 65-177 hold no [#error]. *)
Lemma after_guards_never_errors : never_errors (after_guards included beyond).
Proof.
  unfold after_guards, macos_macros, debug_macros, debug_new_leaks,
    class_headers.
  auto 30 with pp.
Qed.

(** The events of lines 54-177, whatever the table: those of lines 65-79,
    of one branch of lines 81-116, [PP_Debug.h], lines 150-152 or not,
    and lines 160-177. *)
Lemma after_guards_emits :
  emits included (do_debug_guards beyond ;; after_guards included beyond)
        traces_after_guards.
Proof.
  eapply emits_mono.
  - unfold do_debug_guards, after_guards, macos_macros, debug_macros,
      debug_new_leaks, class_headers.
    pp_emits.
  - decided.
Qed.

Lemma run_shape (m : macro_table) :
  exists T,
    T ∈ traces_after_guards /\
    (run included beyond m).1 =
      PPState
        (replay included m (expansion_to_guards (defines m "FIXEDDECIMAL") ++ T))
        (expansion_to_guards (defines m "FIXEDDECIMAL") ++ T).
Proof.
  rewrite run_unfold.
  destruct (after_guards_emits
              (PPState (replay included m
                          (expansion_to_guards (defines m "FIXEDDECIMAL")))
                       (expansion_to_guards (defines m "FIXEDDECIMAL")), []))
    as (T & HT & ->).
  exists T. split; [exact HT|]. cbn [macros trace fst].
  by rewrite (replay_app included).
Qed.

(** The table where a run ends is the table before it with the events of
    the run on top. *)
Lemma run_state (m : macro_table) :
  (run included beyond m).1 =
  PPState (replay included m (trace (run included beyond m).1))
          (trace (run included beyond m).1).
Proof. destruct (run_shape m) as (T & _ & ->). reflexivity. Qed.

Lemma run_macros (m : macro_table) :
  macros (run included beyond m).1 =
  replay included m (trace (run included beyond m).1).
Proof. by rewrite (run_state m) at 1. Qed.

Lemma run_trace_expansion (m : macro_table) :
  exists debug leaks,
    trace (run included beyond m).1 =
    expansion debug leaks (defines m "FIXEDDECIMAL").
Proof.
  destruct (run_shape m) as (T & HT & ->). cbn [trace].
  unfold traces_after_guards in HT. cbn [fmap list_fmap] in HT.
  rewrite !elem_of_cons in HT.
  destruct HT as [->|[->|[->|[->|HT]]]]; [ | | | |by apply elem_of_nil in HT];
    [ exists false, false | exists false, true
    | exists true, false | exists true, true ];
    unfold expansion, expansion_to_149; cbn [fst snd];
    by rewrite <- !(assoc_L (++)).
Qed.

Lemma run_trace_known (m : macro_table) :
  trace (run included beyond m).1 ∈ run_traces.
Proof.
  destruct (run_shape m) as (T & HT & ->). cbn [trace].
  unfold run_traces. rewrite elem_of_app, !list_elem_of_fmap.
  destruct (defines m "FIXEDDECIMAL"); eauto.
Qed.

(** A property that holds of each possible trace holds of every run. *)
Lemma every_run (P : list event -> Prop) (m : macro_table) :
  Forall P run_traces -> P (trace (run included beyond m).1).
Proof.
  intros HP. rewrite Forall_forall in HP. apply HP, run_trace_known.
Qed.

(** The [#error]s of a run are those of the guards. *)
Lemma run_error_directives (m : macro_table) :
  error_directives (run included beyond m).2 =
  (if defines m "_do_debug" then [] else ["_do_debug is not yet #defined"]) ++
  match controlling beyond 58 (guard_table included m) not_zero_or_one with
  | Some v => if v =? 0 then [] else ["_do_debug is not zero or one"]
  | None => []
  end.
Proof.
  rewrite run_unfold, exec_guards, after_guards_never_errors.
  cbn [snd app]. rewrite error_directives_app, <- guard_table_eq.
  unfold defines. rewrite guard_table_do_debug.
  destruct (m !! "_do_debug");
    destruct (controlling beyond 58 (guard_table included m) not_zero_or_one)
      as [v|]; try destruct (v =? 0); reflexivity.
Qed.

End Groups.

(** ** The runs of the header when [_do_debug] is an integer literal *)

Section Runs.

Variable included : header_name -> macro_table -> macro_table.
Variable beyond : nat -> macro_table -> list token -> option N.
Hypothesis Hkeep : keeps_prefix_macros included.

Lemma run_configured_guards (m : macro_table) d :
  configured m d ->
  run included beyond m =
  after_guards included beyond
    (PPState (replay included m (expansion_to_guards (defines m "FIXEDDECIMAL")))
             (expansion_to_guards (defines m "FIXEDDECIMAL")),
     guard_reports d).
Proof.
  intros Hd.
  assert (replay included m (expansion_to_guards (defines m "FIXEDDECIMAL"))
            !! "_do_debug" = Some (Object [TNum d])) as Hg
    by (by rewrite <- (guard_table_eq included Hkeep),
          (guard_table_do_debug included Hkeep)).
  rewrite (run_unfold included beyond Hkeep), exec_guards.
  unfold defines at 3. rewrite Hg.
  rewrite (controlling_value beyond 58 _ _ _ (not_zero_or_one_literal _ d Hg)).
  unfold guard_reports.
  by destruct ((wrap d =? 0) || (wrap d =? 1)).
Qed.

(** The run of a configuration: the final build when the literal is 0,
    the debug build otherwise, with lines 150-152 as the [#if] of line
    149 decides; the guard of line 58 reports a literal that is neither 0
    nor 1, and the run goes on. *)
Lemma run_configured (m : macro_table) d :
  configured m d ->
  run included beyond m =
  (PPState (replay included m (configuration_outcome included beyond m d).1)
           (configuration_outcome included beyond m d).1,
   (configuration_outcome included beyond m d).2).
Proof.
  intros Hd. rewrite (run_configured_guards m d Hd).
  assert (replay included m (expansion_to_guards (defines m "FIXEDDECIMAL"))
            !! "_do_debug" = Some (Object [TNum d])) as Hg
    by (by rewrite <- (guard_table_eq included Hkeep),
          (guard_table_do_debug included Hkeep)).
  unfold configuration_outcome, leaks_condition, table_at_149.
  set (fd := defines m "FIXEDDECIMAL") in *.
  set (mg := replay included m (expansion_to_guards fd)) in *.
  rewrite (exec_end (after_guards included beyond)).
  unfold after_guards, macos_macros, debug_macros, debug_new_leaks,
    class_headers.
  pp_straight included beyond.
  rewrite (exec_if_value beyond 81 _ _ _ _ _ _ _ (wrap d))
    by (apply controlling_value, eval_expr_literal; [reflexivity|];
        pp_lookup Hkeep; exact Hg).
  destruct (wrap d =? 0) eqn:Hzero; pp_straight included beyond.
  - rewrite (exec_if_value beyond 121 _ _ _ _ _ _ _ (wrap d))
      by (apply controlling_value, eval_expr_literal; [reflexivity|];
          pp_lookup Hkeep; exact Hg).
    rewrite Hzero. pp_straight included beyond. unfold pp_skip.
    cbn [fst snd]. f_equal. unfold expansion, expansion_to_149.
    rewrite <- !(replay_app included). fold mg.
    rewrite <- !(assoc_L (++)). reflexivity.
  - rewrite (exec_if_value beyond 121 _ _ _ _ _ _ _ (wrap d))
      by (apply controlling_value, eval_expr_literal; [reflexivity|];
          pp_lookup Hkeep; exact Hg).
    rewrite Hzero. pp_straight included beyond.
    lazymatch goal with
    | |- context [(pp_if beyond 149 _ _ _ ;; _) (PPState ?M _, _)] =>
        replace M
          with (replay included m (expansion_to_149 true fd))
          by (unfold expansion_to_149; rewrite <- !(replay_app included);
              reflexivity)
    end.
    destruct (controlling beyond 149
                (replay included m (expansion_to_149 true fd))
                debug_new_leaks_condition) as [v|] eqn:Hleaks.
    + rewrite (exec_if_value beyond 149 _ _ _ _ _ _ _ v Hleaks).
      destruct (v =? 0); pp_straight included beyond; unfold pp_skip;
        cbn [fst snd negb]; f_equal; unfold expansion;
        rewrite <- !(replay_app included);
        unfold expansion_to_149; rewrite <- !(assoc_L (++)); reflexivity.
    + rewrite (exec_if_rejected beyond 149 _ _ _ _ _ _ _ Hleaks).
      pp_straight included beyond. unfold pp_skip.
      cbn [fst snd]. f_equal. unfold expansion.
      rewrite <- !(replay_app included).
      unfold expansion_to_149. rewrite <- !(assoc_L (++)). reflexivity.
Qed.

(** The final build: the literal is 0, or wraps to 0. *)
Lemma run_final (m : macro_table) d :
  configured m d -> wrap d = 0 ->
  run included beyond m =
  (PPState (replay included m (expansion false false (defines m "FIXEDDECIMAL")))
           (expansion false false (defines m "FIXEDDECIMAL")),
   []).
Proof.
  intros Hd Hw. rewrite (run_configured m d Hd).
  unfold configuration_outcome, guard_reports. by rewrite Hw.
Qed.

(** The debug build: the literal is not 0. *)
Lemma run_debug (m : macro_table) d :
  configured m d -> wrap d <> 0 ->
  exists leaks ds,
    run included beyond m =
    (PPState (replay included m (expansion true leaks (defines m "FIXEDDECIMAL")))
             (expansion true leaks (defines m "FIXEDDECIMAL")),
     guard_reports d ++ ds) /\
    ((leaks = false /\ ds = [MalformedIf 149] /\
      leaks_condition included beyond m = None) \/
     (ds = [] /\
      exists v, leaks_condition included beyond m = Some v /\
                leaks = negb (v =? 0))).
Proof.
  intros Hd Hw. rewrite (run_configured m d Hd).
  unfold configuration_outcome. apply N.eqb_neq in Hw. rewrite Hw.
  destruct (leaks_condition included beyond m) as [v|].
  - exists (negb (v =? 0)), []. rewrite app_nil_r. split; [reflexivity|].
    right. split; [reflexivity|]. by exists v.
  - exists false, [MalformedIf 149]. split; [reflexivity|]. by left.
Qed.

(** The events of a configured run. *)
Lemma run_configured_trace (m : macro_table) d :
  configured m d ->
  exists leaks,
    (run included beyond m).1 =
    PPState
      (replay included m
         (expansion (negb (wrap d =? 0)) leaks (defines m "FIXEDDECIMAL")))
      (expansion (negb (wrap d =? 0)) leaks (defines m "FIXEDDECIMAL")) /\
    (wrap d = 0 -> leaks = false) /\
    (leaks = true <->
     wrap d <> 0 /\
     exists v, leaks_condition included beyond m = Some v /\ v <> 0).
Proof.
  intros Hd. destruct (decide (wrap d = 0)) as [Hw|Hw].
  - exists false. rewrite (run_final m d Hd Hw), Hw. cbn [N.eqb negb fst].
    split; [reflexivity|]. split; [done|]. split; [done|]. by intros [? _].
  - destruct (run_debug m d Hd Hw) as (leaks & ds & -> & Hleaks).
    exists leaks. apply N.eqb_neq in Hw as Hw'. rewrite Hw'. cbn [negb fst].
    split; [reflexivity|]. split; [done|].
    destruct Hleaks as [(-> & _ & Hnone)|(_ & v & Hv & ->)].
    + split; [done|]. intros (_ & v & Hv & _). congruence.
    + split.
      * intros Hne. split; [exact Hw|]. exists v. split; [exact Hv|].
        intros ->. discriminate Hne.
      * intros (_ & v' & Hv' & Hne). assert (v' = v) as -> by congruence.
        apply N.eqb_neq in Hne. by rewrite Hne.
Qed.

End Runs.

(** ** Runs where [_do_debug] is not a number *)

Section Other_runs.

Variable included : header_name -> macro_table -> macro_table.
Variable beyond : nat -> macro_table -> list token -> option N.
Hypothesis Hkeep : keeps_prefix_macros included.

(** The run when the [#if]s of lines 81 and 121 see a [_do_debug] that
    is not defined: it counts as 0 there. *)
Lemma run_undefined (m : macro_table) :
  m !! "_do_debug" = None ->
  run included beyond m =
  (PPState (replay included m (expansion false false (defines m "FIXEDDECIMAL")))
           (expansion false false (defines m "FIXEDDECIMAL")),
   [ErrorDirective "_do_debug is not yet #defined"]).
Proof.
  intros Hd.
  assert (replay included m (expansion_to_guards (defines m "FIXEDDECIMAL"))
            !! "_do_debug" = None) as Hg
    by (by rewrite <- (guard_table_eq included Hkeep),
          (guard_table_do_debug included Hkeep)).
  rewrite (run_unfold included beyond Hkeep), exec_guards.
  unfold defines at 3. rewrite Hg.
  rewrite (controlling_value beyond 58 _ _ _ (not_zero_or_one_undefined _ Hg)).
  set (fd := defines m "FIXEDDECIMAL") in *.
  set (mg := replay included m (expansion_to_guards fd)) in *.
  cbn [N.eqb app].
  rewrite (exec_end (after_guards included beyond)).
  unfold after_guards, macos_macros, debug_macros, debug_new_leaks,
    class_headers.
  pp_straight included beyond.
  rewrite (exec_if_value beyond 81 _ _ _ _ _ _ _ 0)
    by (apply controlling_value, eval_expr_undefined; [reflexivity|];
        pp_lookup Hkeep; exact Hg).
  cbn [N.eqb]. pp_straight included beyond.
  rewrite (exec_if_value beyond 121 _ _ _ _ _ _ _ 0)
    by (apply controlling_value, eval_expr_undefined; [reflexivity|];
        pp_lookup Hkeep; exact Hg).
  cbn [N.eqb]. pp_straight included beyond. unfold pp_skip.
  f_equal. unfold expansion, expansion_to_149.
  rewrite <- !(replay_app included). fold mg.
  rewrite <- !(assoc_L (++)). reflexivity.
Qed.

(** The run when [_do_debug] is defined with nothing after its name: the
    three [#if]s that test it have no expression; each is reported and
    counts as false. *)
Lemma run_empty (m : macro_table) :
  m !! "_do_debug" = Some (Object []) ->
  run included beyond m =
  (PPState (replay included m (expansion false false (defines m "FIXEDDECIMAL")))
           (expansion false false (defines m "FIXEDDECIMAL")),
   [MalformedIf 58; MalformedIf 81; MalformedIf 121]).
Proof.
  intros Hd.
  assert (replay included m (expansion_to_guards (defines m "FIXEDDECIMAL"))
            !! "_do_debug" = Some (Object [])) as Hg
    by (by rewrite <- (guard_table_eq included Hkeep),
          (guard_table_do_debug included Hkeep)).
  rewrite (run_unfold included beyond Hkeep), exec_guards.
  unfold defines at 3. rewrite Hg.
  rewrite (controlling_rejected beyond 58 _ _ (not_zero_or_one_empty _ Hg)).
  set (fd := defines m "FIXEDDECIMAL") in *.
  set (mg := replay included m (expansion_to_guards fd)) in *.
  cbn [app].
  rewrite (exec_end (after_guards included beyond)).
  unfold after_guards, macos_macros, debug_macros, debug_new_leaks,
    class_headers.
  pp_straight included beyond.
  rewrite (exec_if_rejected beyond 81)
    by (apply controlling_rejected, eval_expr_empty; [reflexivity|];
        pp_lookup Hkeep; exact Hg).
  pp_straight included beyond.
  rewrite (exec_if_rejected beyond 121)
    by (apply controlling_rejected, eval_expr_empty; [reflexivity|];
        pp_lookup Hkeep; exact Hg).
  pp_straight included beyond. unfold pp_skip.
  f_equal. unfold expansion, expansion_to_149.
  rewrite <- !(replay_app included). fold mg.
  rewrite <- !(assoc_L (++)). reflexivity.
Qed.

End Other_runs.

(** ** The sample of included headers *)

(** A run that reports nothing ends in its state with no diagnostic. *)
Lemma completes_in_its_state (out : pp_state * list diagnostic) :
  out.2 = [] -> out = (out.1, []).
Proof. destruct out as [s o]. cbn. by intros ->. Qed.

(** The sample of included headers keeps the macros of the header. *)
Lemma sample_keeps : keeps_prefix_macros sample_included.
Proof.
  assert (forall h (m : macro_table) x,
            x <> "FLOATDECIMAL" -> x <> "DEBUG_NEW_LEAKS" ->
            x <> "DEBUG_NEW_OFF" ->
            (x = "DEBUG_NEW" -> is_Some (m !! x)) ->
            sample_included h m !! x = m !! x) as Hsample.
  { intros h m x H1 H2 H3 H4. unfold sample_included.
    repeat case_decide; rewrite ?lookup_insert_ne by done; try done.
    destruct (m !! "DEBUG_NEW") eqn:Hnew; [done|].
    destruct (decide (x = "DEBUG_NEW")) as [->|Hne].
    - destruct (H4 eq_refl) as [r Hr]. congruence.
    - by rewrite lookup_insert_ne. }
  split.
  - intros h m x Hx. apply Hsample;
      try (intros ->; revert Hx; apply (bool_decide_unpack _); vm_compute;
           exact I).
  - intros h m x Hx Hsome. apply Hsample; try done;
      intros ->; revert Hx; apply (bool_decide_unpack _); vm_compute; exact I.
Qed.

(** ** [FIXEDDECIMAL] *)

Section Fixeddecimal.

Variable included : header_name -> macro_table -> macro_table.
Variable beyond : nat -> macro_table -> list token -> option N.
Hypothesis Hkeep : keeps_prefix_macros included.

(** What the guard of lines 40-42 does, on any state. *)
Lemma fixeddecimal_guard_defined (m : macro_table) t ds r :
  m !! "FIXEDDECIMAL" = Some r ->
  fixeddecimal_guard (PPState m t, ds) = (PPState m t, ds).
Proof. intros HF. unfold fixeddecimal_guard, pp_ifndef. cbn. by rewrite HF. Qed.

Lemma fixeddecimal_guard_undefined (m : macro_table) t ds :
  m !! "FIXEDDECIMAL" = None ->
  fixeddecimal_guard (PPState m t, ds) =
  (PPState (<["FIXEDDECIMAL" := Object [TNum 1]]> m)
           (t ++ [Defined "FIXEDDECIMAL" [TNum 1]]), ds).
Proof. intros HF. unfold fixeddecimal_guard, pp_ifndef. cbn. by rewrite HF. Qed.

(** Only lines 40-42 touch [FIXEDDECIMAL]. *)
Lemma fixeddecimal_after_guards :
  preserves "FIXEDDECIMAL"
    (do_debug_guards beyond ;; after_guards included beyond).
Proof.
  unfold do_debug_guards, after_guards, macos_macros, debug_macros,
    debug_new_leaks, class_headers.
  auto 40 with pp.
Qed.

Lemma run_fixeddecimal (m : macro_table) :
  macros (run included beyond m).1 !! "FIXEDDECIMAL" =
  match m !! "FIXEDDECIMAL" with
  | Some r => Some r
  | None => Some (Object [TNum 1])
  end.
Proof.
  rewrite (run_unfold included beyond Hkeep), fixeddecimal_after_guards.
  cbn [macros fst]. rewrite (replay_lookup_control included Hkeep) by in_list.
  unfold defines. by destruct (m !! "FIXEDDECIMAL").
Qed.

End Fixeddecimal.

(** ** The macros that the events define *)

Lemma defined_by_names t x : defined_by t x <-> x ∈ defined_names t.
Proof.
  unfold defined_by, defined_names. rewrite list_elem_of_omap. split.
  - intros [body H]. by exists (Defined x body).
  - intros ([y body|h] & H & [= <-]). by exists body.
Qed.

(** Lines 150-152 apart, the events of a run define macros of the header,
    each in the same way whether lines 150-152 are processed or not. *)
Lemma expansion_definitions debug leaks leaks' fixeddecimal x :
  defined_by (expansion debug leaks fixeddecimal) x -> x <> "new" ->
  x ∈ prefix_macros /\
  is_Some (last_definition x (expansion debug leaks fixeddecimal)) /\
  last_definition x (expansion debug leaks' fixeddecimal) =
    last_definition x (expansion debug leaks fixeddecimal).
Proof.
  intros Hx Hne. apply defined_by_names in Hx.
  assert (Forall (fun y =>
                    y = "new" \/
                    (y ∈ prefix_macros /\
                     is_Some (last_definition y
                                (expansion debug leaks fixeddecimal)) /\
                     last_definition y (expansion debug leaks' fixeddecimal) =
                       last_definition y (expansion debug leaks fixeddecimal)))
            (defined_names (expansion debug leaks fixeddecimal))) as Hall
    by (destruct debug, leaks, leaks', fixeddecimal; decided).
  rewrite Forall_forall in Hall. by destruct (Hall x Hx).
Qed.

Lemma without_new_expansion debug leaks fixeddecimal :
  without_new (expansion debug leaks fixeddecimal) =
  expansion debug false fixeddecimal.
Proof. by destruct debug, leaks, fixeddecimal; vm_compute. Qed.

Lemma new_in_expansion debug leaks fixeddecimal :
  Included (Angle "new.h") ∈ expansion debug leaks fixeddecimal <->
  leaks = true.
Proof.
  destruct debug, leaks, fixeddecimal; split; try done;
    first [ intros _; decided | intros H; exfalso; revert H; decided ].
Qed.

Ltac final_lookup included Hkeep :=
  repeat match goal with
  | |- context [replay included ?m ?t !! ?x] =>
      let v := eval vm_compute in (last_definition x t) in
      lazymatch v with
      | Some ?r =>
          rewrite (replay_lookup_defined included Hkeep t m x r)
            by (lazymatch goal with
                | |- _ = _ => vm_compute; reflexivity
                | |- _ => in_list
                end)
      end
  end.

Ltac last_def :=
  repeat match goal with
  | |- context [last_definition ?x ?t] =>
      let v := eval vm_compute in (last_definition x t) in
      change (last_definition x t) with v
  end;
  cbn [from_option].

(** ** The target macros *)

Lemma expand_token_object (m : macro_table) x body :
  reserved x = false -> m !! x = Some (Object body) ->
  expand_token m (TId x) = expand (delete x m) body.
Proof. intros Hr Hx. cbn [expand_token]. by rewrite Hr, Hx. Qed.

(** Lines 9-15: what the five target macros evaluate to in a table that
    holds the definitions of the header for them. *)
Lemma target_macros_evaluate (m : macro_table) :
  m !! "PP_Target_Carbon" = Some (Object [TNum 1]) ->
  m !! "PP_Target_Classic" =
    Some (Object [TLParen; TNot; TId "PP_Target_Carbon"; TRParen]) ->
  m !! "TARGET_API_MAC_CARBON" = Some (Object [TId "PP_Target_Carbon"]) ->
  m !! "TARGET_API_MAC_OS8" = Some (Object [TId "PP_Target_Classic"]) ->
  m !! "TARGET_API_MAC_OSX" = Some (Object [TId "PP_Target_Carbon"]) ->
  eval_expr m [TId "PP_Target_Carbon"] = Value 1 /\
  eval_expr m [TId "PP_Target_Classic"] = Value 0 /\
  eval_expr m [TId "TARGET_API_MAC_CARBON"] = Value 1 /\
  eval_expr m [TId "TARGET_API_MAC_OS8"] = Value 0 /\
  eval_expr m [TId "TARGET_API_MAC_OSX"] = Value 1.
Proof.
  intros Hcarbon Hclassic Hmac Hos8 Hosx.
  assert (forall m' : macro_table,
            m' !! "PP_Target_Carbon" = Some (Object [TNum 1]) ->
            expand m' [TId "PP_Target_Carbon"] = [TNum 1]) as Ecarbon.
  { intros m' H. rewrite expand_cons, expand_nil.
    by rewrite (expand_token_literal m' _ 1). }
  assert (forall m' : macro_table,
            m' !! "PP_Target_Carbon" = Some (Object [TNum 1]) ->
            m' !! "PP_Target_Classic" =
              Some (Object [TLParen; TNot; TId "PP_Target_Carbon"; TRParen]) ->
            expand m' [TId "PP_Target_Classic"] =
              [TLParen; TNot; TNum 1; TRParen]) as Eclassic.
  { intros m' H1 H2. rewrite expand_cons, expand_nil.
    rewrite (expand_token_object m' "PP_Target_Classic" _ eq_refl H2).
    rewrite !expand_cons, expand_nil.
    by rewrite (expand_token_literal _ "PP_Target_Carbon" 1)
      by (by rewrite ?lookup_delete_ne). }
  repeat split.
  - by rewrite (eval_expr_tokens m _ [TNum 1]) by auto.
  - by rewrite (eval_expr_tokens m _ [TLParen; TNot; TNum 1; TRParen]) by auto.
  - rewrite (eval_expr_tokens m _ [TNum 1]); [reflexivity| |reflexivity].
    rewrite expand_cons, expand_nil, (expand_token_object m "TARGET_API_MAC_CARBON" _ eq_refl Hmac).
    rewrite Ecarbon by (by rewrite lookup_delete_ne). reflexivity.
  - rewrite (eval_expr_tokens m _ [TLParen; TNot; TNum 1; TRParen]);
      [reflexivity| |reflexivity].
    rewrite expand_cons, expand_nil, (expand_token_object m "TARGET_API_MAC_OS8" _ eq_refl Hos8).
    rewrite Eclassic by (by rewrite lookup_delete_ne). reflexivity.
  - rewrite (eval_expr_tokens m _ [TNum 1]); [reflexivity| |reflexivity].
    rewrite expand_cons, expand_nil, (expand_token_object m "TARGET_API_MAC_OSX" _ eq_refl Hosx).
    rewrite Ecarbon by (by rewrite lookup_delete_ne). reflexivity.
Qed.

(** ** When the header reports an [#error] *)

#[local] Opaque run guard_table eval_expr replay expansion expansion_to_149
  expansion_to_guards after_guards.

(** [#define _do_debug 0 && 0]: the macro evaluates to 0, and line 58,
    where its tokens stand next to [==], does not. *)
Lemma not_zero_or_one_conjunction (m : macro_table) :
  m !! "_do_debug" = Some (Object [TNum 0; TAndAnd; TNum 0]) ->
  eval_expr m [TId "_do_debug"] = Value 0 /\
  eval_expr m not_zero_or_one = Value 1.
Proof.
  intros Hd.
  assert (expand_token m (TId "_do_debug") = [TNum 0; TAndAnd; TNum 0]) as He.
  { rewrite (expand_token_object m "_do_debug" _ eq_refl Hd).
    by rewrite expand_unfold. }
  split.
  - rewrite (eval_expr_tokens m _ [TNum 0; TAndAnd; TNum 0]);
      [reflexivity| |reflexivity].
    by rewrite expand_cons, expand_nil, He.
  - rewrite (eval_expr_tokens m _
               [ TNot; TLParen; TNum 0; TAndAnd; TNum 0; TEqEq; TNum 0; TOrOr;
                 TNum 0; TAndAnd; TNum 0; TEqEq; TNum 1; TRParen ]);
      [reflexivity| |reflexivity].
    unfold not_zero_or_one. rewrite !expand_cons, expand_nil, !He.
    reflexivity.
Qed.

(** C1, as amended.  Whatever the macro table before the header, the run
    reports an [#error] directive exactly when [_do_debug] is not defined
    (line 55) or the expression of line 58, once the macros in it are
    replaced, has a value that is not 0 (line 59).  An undefined
    [_do_debug] gets the first [#error] and no other diagnostic.  For
    [_do_debug] defined as one integer literal, an [#error] is reported
    exactly when the literal, cut to 64 bits, is neither 0 nor 1.  In the
    two supported configurations no [#error] is reported, and an [#error]
    that is reported is one of the two of lines 55 and 59: the header has
    no other.  A [_do_debug] that is defined with nothing after its name
    gets no [#error]: the preprocessor rejects the [#if]s of lines 58, 81
    and 121 themselves.  With [#define _do_debug 0 && 0] the macro
    evaluates to 0, and line 59 is reported all the same.
    (Assumption on the included headers: [keeps_prefix_macros].) *)
Theorem do_debug_guards_error
    (included : header_name -> macro_table -> macro_table)
    (beyond : nat -> macro_table -> list token -> option N)
    (Hkeep : keeps_prefix_macros included) (m : macro_table) :
  ((exists msg, ErrorDirective msg ∈ (run included beyond m).2) <->
   (m !! "_do_debug" = None \/
    exists v,
      controlling beyond 58 (guard_table included m) not_zero_or_one = Some v /\
      v <> 0))
  /\ (m !! "_do_debug" = None ->
      (run included beyond m).2 =
        [ErrorDirective "_do_debug is not yet #defined"])
  /\ (forall d, configured m d ->
      ((exists msg, ErrorDirective msg ∈ (run included beyond m).2) <->
       (wrap d <> 0 /\ wrap d <> 1)))
  /\ (supported m ->
      forall msg, ErrorDirective msg ∉ (run included beyond m).2)
  /\ (forall msg, ErrorDirective msg ∈ (run included beyond m).2 ->
      msg = "_do_debug is not yet #defined" \/
      msg = "_do_debug is not zero or one")
  /\ (m !! "_do_debug" = Some (Object []) ->
      (run included beyond m).2 =
        [MalformedIf 58; MalformedIf 81; MalformedIf 121])
  /\ (m !! "_do_debug" = Some (Object [TNum 0; TAndAnd; TNum 0]) ->
      do_debug_value included m = Value 0 /\
      ErrorDirective "_do_debug is not zero or one" ∈
        (run included beyond m).2).
Proof.
  pose proof (run_error_directives included beyond Hkeep m) as Herr.
  assert (forall d, configured m d ->
            ((exists msg, ErrorDirective msg ∈ (run included beyond m).2) <->
             (wrap d <> 0 /\ wrap d <> 1))) as Hliteral.
  { intros d Hd. setoid_rewrite error_directive_elem. rewrite Herr.
    unfold defines. rewrite Hd.
    rewrite (controlling_value beyond 58 _ _ _
               (not_zero_or_one_literal _ d
                  (eq_trans (guard_table_do_debug included Hkeep m) Hd))).
    destruct (wrap d =? 0) eqn:H0; [|destruct (wrap d =? 1) eqn:H1];
      cbn [orb negb truth N.eqb app].
    - apply N.eqb_eq in H0. split; [intros [msg Hmsg]|intros [? _]]; [|done].
      by apply elem_of_nil in Hmsg.
    - apply N.eqb_eq in H1. split; [intros [msg Hmsg]|intros [_ ?]]; [|done].
      by apply elem_of_nil in Hmsg.
    - apply N.eqb_neq in H0, H1. split; [done|]. intros _.
      exists "_do_debug is not zero or one". by left. }
  split; [|split; [|split; [exact Hliteral|split; [|split; [|split]]]]].
  - setoid_rewrite error_directive_elem. rewrite Herr. unfold defines.
    destruct (m !! "_do_debug") as [r|] eqn:Hd.
    + destruct (controlling beyond 58 (guard_table included m) not_zero_or_one)
        as [v|]; [destruct (v =? 0) eqn:Hv|]; cbn [app].
      * apply N.eqb_eq in Hv as ->. split.
        -- intros [msg Hmsg]. by apply elem_of_nil in Hmsg.
        -- intros [?|(v & [= <-] & ?)]; done.
      * apply N.eqb_neq in Hv. split.
        -- intros _. right. by exists v.
        -- intros _. exists "_do_debug is not zero or one". by left.
      * split.
        -- intros [msg Hmsg]. by apply elem_of_nil in Hmsg.
        -- intros [?|(v & ? & _)]; done.
    + split; [by left|]. intros _.
      exists "_do_debug is not yet #defined". by left.
  - intros Hd. by rewrite (run_undefined included beyond Hkeep m Hd).
  - intros [Hd|Hd] msg Hmsg.
    + destruct (proj1 (Hliteral 0 Hd) (ex_intro _ msg Hmsg)) as [H0 _].
      by apply H0.
    + destruct (proj1 (Hliteral 1 Hd) (ex_intro _ msg Hmsg)) as [_ H1].
      by apply H1.
  - intros msg. rewrite error_directive_elem, Herr.
    destruct (defines m "_do_debug");
      destruct (controlling beyond 58 (guard_table included m) not_zero_or_one)
        as [v|]; try destruct (v =? 0); cbn [app];
      rewrite ?elem_of_cons, ?elem_of_nil; tauto.
  - intros Hd. by rewrite (run_empty included beyond Hkeep m Hd).
  - intros Hd.
    assert (guard_table included m !! "_do_debug" =
            Some (Object [TNum 0; TAndAnd; TNum 0])) as Hg
      by (by rewrite (guard_table_do_debug included Hkeep)).
    destruct (not_zero_or_one_conjunction _ Hg) as [Hvalue Hline].
    split; [exact Hvalue|].
    rewrite error_directive_elem, Herr. unfold defines. rewrite Hd.
    rewrite (controlling_value beyond 58 _ _ _ Hline). by left.
Qed.

Lemma do_debug_guards_error_witness :
  keeps_prefix_macros sample_included /\
  supported debug_build /\
  forall msg,
    ErrorDirective msg ∉ (run sample_included sample_beyond debug_build).2.
Proof.
  split; [exact sample_keeps|]. split; [right; vm_compute; reflexivity|].
  apply (do_debug_guards_error sample_included sample_beyond sample_keeps
           debug_build).
  right. vm_compute; reflexivity.
Defined.

(** C1 as stated fails where [_do_debug] is defined with nothing after
    its name: the value of [_do_debug] is then neither 0 nor 1, and yet
    no [#error] directive is reported; the preprocessor reports the
    [#if]s of lines 58, 81 and 121, which have nothing to test. *)
Lemma do_debug_without_value_counterexample :
  valueless_build !! "_do_debug" = Some (Object []) /\
  do_debug_value sample_included valueless_build <> Value 0 /\
  do_debug_value sample_included valueless_build <> Value 1 /\
  (run sample_included sample_beyond valueless_build).2 =
    [MalformedIf 58; MalformedIf 81; MalformedIf 121] /\
  ~ ((exists msg,
        ErrorDirective msg ∈
          (run sample_included sample_beyond valueless_build).2) <->
     (valueless_build !! "_do_debug" = None \/
      (do_debug_value sample_included valueless_build <> Value 0 /\
       do_debug_value sample_included valueless_build <> Value 1))).
Proof.
  assert (do_debug_value sample_included valueless_build = Rejected) as Hv
    by (vm_compute; reflexivity).
  assert ((run sample_included sample_beyond valueless_build).2 =
          [MalformedIf 58; MalformedIf 81; MalformedIf 121]) as Hr
    by (vm_compute; reflexivity).
  split; [vm_compute; reflexivity|]. rewrite Hv, Hr.
  split; [discriminate|]. split; [discriminate|]. split; [reflexivity|].
  intros [_ H]. destruct H as [msg Hmsg].
  - right. split; discriminate.
  - revert Hmsg. rewrite !elem_of_cons, elem_of_nil. intros [?|[?|[?|?]]]; done.
Qed.

(** ** The states in which a run ends *)

Section Outcomes.

Variable included : header_name -> macro_table -> macro_table.
Variable beyond : nat -> macro_table -> list token -> option N.
Hypothesis Hkeep : keeps_prefix_macros included.

(** The final build. *)
Lemma run_state_final (m : macro_table) :
  configured m 0 ->
  (run included beyond m).1 =
  PPState (replay included m (expansion false false (defines m "FIXEDDECIMAL")))
          (expansion false false (defines m "FIXEDDECIMAL")).
Proof. intros Hd. by rewrite (run_final included beyond Hkeep m 0 Hd wrap_0). Qed.

(** The debug build. *)
Lemma run_state_debug (m : macro_table) :
  configured m 1 ->
  exists leaks,
    (run included beyond m).1 =
    PPState (replay included m (expansion true leaks (defines m "FIXEDDECIMAL")))
            (expansion true leaks (defines m "FIXEDDECIMAL")) /\
    (leaks = true <->
     exists v, leaks_condition included beyond m = Some v /\ v <> 0).
Proof.
  intros Hd.
  destruct (run_configured_trace included beyond Hkeep m 1 Hd)
    as (leaks & Hr & _ & Hleaks).
  exists leaks. rewrite wrap_1 in *. split; [exact Hr|].
  rewrite Hleaks. split; [by intros [_ ?] | by intros ?].
Qed.

(** A supported build. *)
Lemma run_state_supported (m : macro_table) :
  supported m ->
  exists debug leaks,
    (run included beyond m).1 =
    PPState
      (replay included m (expansion debug leaks (defines m "FIXEDDECIMAL")))
      (expansion debug leaks (defines m "FIXEDDECIMAL")) /\
    (debug = true <-> configured m 1) /\
    (debug = false -> leaks = false).
Proof.
  intros [Hd|Hd].
  - exists false, false. split; [exact (run_state_final m Hd)|].
    split; [|done]. split; [done|]. unfold configured in *. congruence.
  - destruct (run_state_debug m Hd) as (leaks & Hr & _).
    exists true, leaks. by split.
Qed.

Lemma run_completes_supported (m : macro_table) s :
  supported m -> run included beyond m = (s, []) ->
  exists debug leaks,
    s = PPState
          (replay included m (expansion debug leaks (defines m "FIXEDDECIMAL")))
          (expansion debug leaks (defines m "FIXEDDECIMAL")) /\
    (debug = false -> leaks = false).
Proof.
  intros Hs Hr. destruct (run_state_supported m Hs)
    as (debug & leaks & Hstate & _ & Hleaks).
  rewrite Hr in Hstate. exists debug, leaks. by split.
Qed.

End Outcomes.

(** C2.  In a run of a supported configuration that reports nothing, the
    target macros select the Carbon interfaces and not the Classic ones:
    [PP_Target_Carbon], [TARGET_API_MAC_CARBON] and [TARGET_API_MAC_OSX]
    evaluate to 1, [PP_Target_Classic] and [TARGET_API_MAC_OS8] to 0, so
    exactly one of Carbon and Classic is enabled.
    (Assumption on the included headers: [keeps_prefix_macros].) *)
Theorem target_macros_select_carbon
    (included : header_name -> macro_table -> macro_table)
    (beyond : nat -> macro_table -> list token -> option N)
    (Hkeep : keeps_prefix_macros included) (m : macro_table) (s : pp_state) :
  supported m ->
  run included beyond m = (s, []) ->
  eval_expr (macros s) [TId "PP_Target_Carbon"] = Value 1 /\
  eval_expr (macros s) [TId "PP_Target_Classic"] = Value 0 /\
  eval_expr (macros s) [TId "TARGET_API_MAC_CARBON"] = Value 1 /\
  eval_expr (macros s) [TId "TARGET_API_MAC_OS8"] = Value 0 /\
  eval_expr (macros s) [TId "TARGET_API_MAC_OSX"] = Value 1 /\
  (enabled (macros s) "PP_Target_Carbon" /\
   ~ enabled (macros s) "PP_Target_Classic").
Proof.
  intros Hs Hr.
  destruct (run_completes_supported included beyond Hkeep m s Hs Hr)
    as (debug & leaks & -> & _).
  cbn [macros]. unfold enabled.
  destruct (target_macros_evaluate
              (replay included m
                 (expansion debug leaks (defines m "FIXEDDECIMAL"))))
    as (H1 & H2 & H3 & H4 & H5);
    try (destruct debug, leaks, (defines m "FIXEDDECIMAL");
         by final_lookup included Hkeep).
  rewrite H1, H2, H3, H4, H5. repeat split.
  - by exists 1.
  - intros (v & [= <-] & Hne). by apply Hne.
Qed.

Lemma target_macros_select_carbon_witness :
  keeps_prefix_macros sample_included /\
  supported final_build /\
  eval_expr (macros (run sample_included sample_beyond final_build).1)
            [TId "TARGET_API_MAC_OS8"] = Value 0.
Proof.
  split; [exact sample_keeps|]. split; [left; vm_compute; reflexivity|].
  apply (target_macros_select_carbon sample_included sample_beyond sample_keeps
           final_build (run sample_included sample_beyond final_build).1).
  - left; vm_compute; reflexivity.
  - apply completes_in_its_state. vm_compute; reflexivity.
Defined.

(** C3.  The debugging flags follow [_do_debug]: with [_do_debug] 1,
    [PP_DEBUG] and [PP_SPOTLIGHT_SUPPORT] are defined as 1; with
    [_do_debug] 0, both are defined as 0 and [DEBUG_NEW] as
    [DEBUG_NEW_OFF]; in both configurations [PP_QC_SUPPORT] and
    [PP_DEBUGNEW_SUPPORT] are defined as 0.  This is the table in which
    the run ends.
    (Assumption on the included headers: [keeps_prefix_macros].) *)
Theorem debug_flags_follow_do_debug
    (included : header_name -> macro_table -> macro_table)
    (beyond : nat -> macro_table -> list token -> option N)
    (Hkeep : keeps_prefix_macros included) (m : macro_table) :
  (configured m 1 ->
   macros (run included beyond m).1 !! "PP_DEBUG" = Some (Object [TNum 1]) /\
   macros (run included beyond m).1 !! "PP_SPOTLIGHT_SUPPORT" =
     Some (Object [TNum 1]))
  /\
  (configured m 0 ->
   macros (run included beyond m).1 !! "PP_DEBUG" = Some (Object [TNum 0]) /\
   macros (run included beyond m).1 !! "PP_SPOTLIGHT_SUPPORT" =
     Some (Object [TNum 0]) /\
   macros (run included beyond m).1 !! "DEBUG_NEW" =
     Some (Object [TId "DEBUG_NEW_OFF"]))
  /\
  (supported m ->
   macros (run included beyond m).1 !! "PP_QC_SUPPORT" =
     Some (Object [TNum 0]) /\
   macros (run included beyond m).1 !! "PP_DEBUGNEW_SUPPORT" =
     Some (Object [TNum 0])).
Proof.
  split; [|split].
  - intros Hd.
    destruct (run_state_debug included beyond Hkeep m Hd) as (leaks & -> & _).
    cbn [macros]. destruct leaks, (defines m "FIXEDDECIMAL");
      split; by final_lookup included Hkeep.
  - intros Hd. rewrite (run_state_final included beyond Hkeep m Hd).
    cbn [macros]. destruct (defines m "FIXEDDECIMAL");
      repeat split; by final_lookup included Hkeep.
  - intros Hs.
    destruct (run_state_supported included beyond Hkeep m Hs)
      as (debug & leaks & -> & _).
    cbn [macros]. destruct debug, leaks, (defines m "FIXEDDECIMAL");
      split; by final_lookup included Hkeep.
Qed.

Lemma debug_flags_follow_do_debug_witness :
  keeps_prefix_macros sample_included /\
  configured debug_build 1 /\
  macros (run sample_included sample_beyond debug_build).1 !! "PP_DEBUG" =
    Some (Object [TNum 1]).
Proof.
  split; [exact sample_keeps|]. split; [vm_compute; reflexivity|].
  apply (debug_flags_follow_do_debug sample_included sample_beyond sample_keeps
           debug_build).
  vm_compute; reflexivity.
Defined.

(** C4.  After a run of a supported configuration that reports nothing,
    every macro of the downstream contract is defined, and by the header
    itself: [PP_Target_Carbon], [TARGET_API_MAC_OSX], [PP_DEBUG],
    [PP_SPOTLIGHT_SUPPORT], [_mac_gui_app].
    (Assumption on the included headers: [keeps_prefix_macros].) *)
Theorem downstream_contract_defined
    (included : header_name -> macro_table -> macro_table)
    (beyond : nat -> macro_table -> list token -> option N)
    (Hkeep : keeps_prefix_macros included) (m : macro_table) (s : pp_state) :
  supported m ->
  run included beyond m = (s, []) ->
  forall x, x ∈ downstream_contract ->
    is_Some (macros s !! x) /\ defined_by (trace s) x.
Proof.
  intros Hs Hr x Hx.
  destruct (run_completes_supported included beyond Hkeep m s Hs Hr)
    as (debug & leaks & -> & _).
  cbn [macros trace]. rewrite defined_by_last.
  unfold downstream_contract in Hx.
  repeat (apply elem_of_cons in Hx as [->|Hx]);
    [ .. | by apply elem_of_nil in Hx];
    destruct debug, leaks, (defines m "FIXEDDECIMAL");
    final_lookup included Hkeep; split; by eexists.
Qed.

Lemma downstream_contract_defined_witness :
  keeps_prefix_macros sample_included /\
  supported debug_build /\
  is_Some (macros (run sample_included sample_beyond debug_build).1
             !! "_mac_gui_app").
Proof.
  split; [exact sample_keeps|]. split; [right; vm_compute; reflexivity|].
  apply (downstream_contract_defined sample_included sample_beyond sample_keeps
           debug_build (run sample_included sample_beyond debug_build).1).
  - right; vm_compute; reflexivity.
  - apply completes_in_its_state. vm_compute; reflexivity.
  - apply (bool_decide_unpack _); vm_compute; exact I.
Defined.

(** C5.  Whatever integer literal [_do_debug] is defined as, the run ends
    with [PP_Supports_Pascal_Strings] defined as 1, [PP_StdDialogs_Option]
    as [PP_StdDialogs_NavServicesOnly] and [PP_Uses_PowerPlant_Namespace]
    as 0.
    (Assumption on the included headers: [keeps_prefix_macros].) *)
Theorem options_do_not_depend_on_do_debug
    (included : header_name -> macro_table -> macro_table)
    (beyond : nat -> macro_table -> list token -> option N)
    (Hkeep : keeps_prefix_macros included) (m : macro_table) (d : N) :
  configured m d ->
  macros (run included beyond m).1 !! "PP_Supports_Pascal_Strings" =
    Some (Object [TNum 1]) /\
  macros (run included beyond m).1 !! "PP_StdDialogs_Option" =
    Some (Object [TId "PP_StdDialogs_NavServicesOnly"]) /\
  macros (run included beyond m).1 !! "PP_Uses_PowerPlant_Namespace" =
    Some (Object [TNum 0]).
Proof.
  intros Hd.
  destruct (run_configured_trace included beyond Hkeep m d Hd)
    as (leaks & -> & _).
  cbn [macros].
  destruct (negb (wrap d =? 0)), leaks, (defines m "FIXEDDECIMAL");
    repeat split; by final_lookup included Hkeep.
Qed.

Lemma options_do_not_depend_on_do_debug_witness :
  keeps_prefix_macros sample_included /\
  configured final_build 0 /\
  macros (run sample_included sample_beyond final_build).1
    !! "PP_StdDialogs_Option" =
    Some (Object [TId "PP_StdDialogs_NavServicesOnly"]).
Proof.
  split; [exact sample_keeps|]. split; [vm_compute; reflexivity|].
  apply (options_do_not_depend_on_do_debug sample_included sample_beyond
           sample_keeps final_build 0).
  vm_compute; reflexivity.
Defined.

(** C6.  In a run of a supported configuration that reports nothing, the
    header includes, after the library and debugging headers and before
    [my_notation.h], the eleven widget headers, in the order of lines
    160-171, with nothing between them.  The only header that can come
    between [PP_Debug.h] and the widget headers is [new.h]: never in the
    final build, and in the debug build exactly when the [#if] of line
    149 holds.
    (Assumption on the included headers: [keeps_prefix_macros].) *)
Theorem widget_headers_included_in_order
    (included : header_name -> macro_table -> macro_table)
    (beyond : nat -> macro_table -> list token -> option N)
    (Hkeep : keeps_prefix_macros included) (m : macro_table) (s : pp_state) :
  supported m ->
  run included beyond m = (s, []) ->
  exists new_h,
    (new_h = [] \/ new_h = [Angle "new.h"]) /\
    (configured m 0 -> new_h = []) /\
    (new_h = [Angle "new.h"] <->
     configured m 1 /\
     exists v, leaks_condition included beyond m = Some v /\ v <> 0) /\
    included_headers (trace s) =
      [ Angle "MSLCarbonPrefix.h"; Angle "cmath"; Angle "fp.h"; Angle "complex";
        Angle "PP_Debug.h" ] ++
      new_h ++
      [ Angle "LTable.h"; Angle "LTableView.h"; Angle "LTableMultiSelector.h";
        Angle "LTableMultiGeometry.h"; Angle "LTableMonoGeometry.h";
        Angle "LGroupBox.h"; Angle "LIconPane.h"; Angle "PP_DebugMacros.h";
        Angle "LPopupButton.h"; Angle "UNavServicesDialogs.h";
        Angle "UControlRegistry.h";
        Quoted "my_notation.h" ].
Proof.
  intros Hs Hr.
  assert (s = (run included beyond m).1) as -> by (by rewrite Hr).
  destruct Hs as [Hd|Hd].
  - rewrite (run_state_final included beyond Hkeep m Hd). cbn [trace].
    exists []. split; [by left|]. split; [done|]. split.
    + split; [done|]. intros [Hone _]. unfold configured in *. congruence.
    + by destruct (defines m "FIXEDDECIMAL"); vm_compute.
  - destruct (run_state_debug included beyond Hkeep m Hd)
      as (leaks & -> & Hleaks).
    cbn [trace]. exists (if leaks then [Angle "new.h"] else []).
    split; [destruct leaks; auto|]. split.
    + intros H0. unfold configured in *. congruence.
    + split.
      * rewrite <- Hleaks. destruct leaks; split; try done.
        by intros [_ ?].
      * by destruct leaks, (defines m "FIXEDDECIMAL"); vm_compute.
Qed.

Lemma widget_headers_included_in_order_witness :
  keeps_prefix_macros sample_included /\
  supported final_build /\
  exists new_h,
    (new_h = [] \/ new_h = [Angle "new.h"]) /\
    (configured final_build 0 -> new_h = []) /\
    (new_h = [Angle "new.h"] <->
     configured final_build 1 /\
     exists v,
       leaks_condition sample_included sample_beyond final_build = Some v /\
       v <> 0) /\
    included_headers
      (trace (run sample_included sample_beyond final_build).1) =
      [ Angle "MSLCarbonPrefix.h"; Angle "cmath"; Angle "fp.h"; Angle "complex";
        Angle "PP_Debug.h" ] ++
      new_h ++
      [ Angle "LTable.h"; Angle "LTableView.h"; Angle "LTableMultiSelector.h";
        Angle "LTableMultiGeometry.h"; Angle "LTableMonoGeometry.h";
        Angle "LGroupBox.h"; Angle "LIconPane.h"; Angle "PP_DebugMacros.h";
        Angle "LPopupButton.h"; Angle "UNavServicesDialogs.h";
        Angle "UControlRegistry.h";
        Quoted "my_notation.h" ].
Proof.
  split; [exact sample_keeps|]. split; [left; vm_compute; reflexivity|].
  apply (widget_headers_included_in_order sample_included sample_beyond
           sample_keeps final_build
           (run sample_included sample_beyond final_build).1).
  - left; vm_compute; reflexivity.
  - apply completes_in_its_state. vm_compute; reflexivity.
Defined.

(** ** Two runs of one configuration *)

Lemma new_defined_in_expansion debug leaks fixeddecimal :
  defined_by (expansion debug leaks fixeddecimal) "new" <-> leaks = true.
Proof.
  rewrite defined_by_last.
  destruct debug, leaks, fixeddecimal; split; try done;
    first [ intros _; by eexists | by intros [? ?] ].
Qed.

(** The [#error]s of a configured run are those of the guard of line
    58. *)
Lemma run_configured_errors
    (included : header_name -> macro_table -> macro_table)
    (beyond : nat -> macro_table -> list token -> option N)
    (Hkeep : keeps_prefix_macros included) (m : macro_table) d :
  configured m d ->
  error_directives (run included beyond m).2 =
  error_directives (guard_reports d).
Proof.
  intros Hd. rewrite (run_configured included beyond Hkeep m d Hd).
  unfold configuration_outcome.
  destruct (wrap d =? 0); [reflexivity|].
  destruct (leaks_condition included beyond m); cbn [snd]; [reflexivity|].
  by rewrite error_directives_app, app_nil_r.
Qed.

(** C7, as amended.  Take two runs, with the same included headers, from
    macro tables that define [_do_debug] as the same integer literal and
    agree on whether [FIXEDDECIMAL] is defined.  They report the same
    [#error]s; they go through the same events, definitions and
    inclusions in the same order, lines 150-152 apart; and every macro
    other than [new] that one of them defines, the other defines too,
    and both end with the same definition of it.  When the literal is 0
    the two runs go through the same events and report the same.
    Otherwise the events differ exactly when one run processes lines
    150-152 and the other does not, and a run processes them exactly
    when the [#if] of line 149 holds in its table: that line reads
    [DEBUG_NEW] and [DEBUG_NEW_LEAKS], which are not part of the
    configuration.
    (Assumption on the included headers: [keeps_prefix_macros].) *)
Theorem expansion_is_determined_by_configuration
    (included : header_name -> macro_table -> macro_table)
    (beyond : nat -> macro_table -> list token -> option N)
    (Hkeep : keeps_prefix_macros included)
    (m1 m2 : macro_table) (d : N) :
  configured m1 d -> configured m2 d ->
  defines m1 "FIXEDDECIMAL" = defines m2 "FIXEDDECIMAL" ->
  error_directives (run included beyond m1).2 =
    error_directives (run included beyond m2).2 /\
  without_new (trace (run included beyond m1).1) =
    without_new (trace (run included beyond m2).1) /\
  (forall x, x <> "new" ->
     defined_by (trace (run included beyond m1).1) x ->
     defined_by (trace (run included beyond m2).1) x /\
     macros (run included beyond m1).1 !! x =
       macros (run included beyond m2).1 !! x) /\
  (wrap d = 0 ->
   trace (run included beyond m1).1 = trace (run included beyond m2).1 /\
   (run included beyond m1).2 = (run included beyond m2).2) /\
  ((Included (Angle "new.h") ∈ trace (run included beyond m1).1 <->
    Included (Angle "new.h") ∈ trace (run included beyond m2).1) ->
   trace (run included beyond m1).1 = trace (run included beyond m2).1) /\
  (Included (Angle "new.h") ∈ trace (run included beyond m1).1 <->
   wrap d <> 0 /\
   exists v, leaks_condition included beyond m1 = Some v /\ v <> 0).
Proof.
  intros Hd1 Hd2 HF.
  split; [by rewrite !(run_configured_errors included beyond Hkeep _ d)|].
  split; [|split; [|split; [|split]]].
  - destruct (run_configured_trace included beyond Hkeep m1 d Hd1)
      as (l1 & -> & _).
    destruct (run_configured_trace included beyond Hkeep m2 d Hd2)
      as (l2 & -> & _).
    cbn [trace]. by rewrite !without_new_expansion, HF.
  - intros x Hne.
    destruct (run_configured_trace included beyond Hkeep m1 d Hd1)
      as (l1 & -> & _).
    destruct (run_configured_trace included beyond Hkeep m2 d Hd2)
      as (l2 & -> & _).
    cbn [trace macros]. rewrite <- HF. intros Hx.
    destruct (expansion_definitions _ l1 l2 _ x Hx Hne)
      as (Hprefix & [body Hlast] & Hsame).
    rewrite Hlast in Hsame. split.
    + apply defined_by_last. by exists body.
    + by rewrite !(replay_lookup_defined included Hkeep _ _ x body).
  - intros Hw.
    by rewrite (run_final included beyond Hkeep m1 d Hd1 Hw),
      (run_final included beyond Hkeep m2 d Hd2 Hw), HF.
  - destruct (run_configured_trace included beyond Hkeep m1 d Hd1)
      as (l1 & -> & _).
    destruct (run_configured_trace included beyond Hkeep m2 d Hd2)
      as (l2 & -> & _).
    cbn [trace]. rewrite !new_in_expansion, HF. intros Hl.
    assert (l1 = l2) as -> by (destruct l1, l2; intuition congruence).
    reflexivity.
  - destruct (run_configured_trace included beyond Hkeep m1 d Hd1)
      as (l1 & -> & _ & Hleaks).
    cbn [trace]. by rewrite new_in_expansion.
Qed.

Lemma expansion_is_determined_by_configuration_witness :
  keeps_prefix_macros sample_included /\
  configured debug_build 1 /\
  configured (<["UNRELATED" := Object [TNum 5]]> debug_build) 1 /\
  without_new (trace (run sample_included sample_beyond debug_build).1) =
  without_new
    (trace (run sample_included sample_beyond
              (<["UNRELATED" := Object [TNum 5]]> debug_build)).1).
Proof.
  split; [exact sample_keeps|].
  split; [vm_compute; reflexivity|]. split; [vm_compute; reflexivity|].
  refine (proj1 (proj2
            (expansion_is_determined_by_configuration sample_included
               sample_beyond sample_keeps debug_build
               (<["UNRELATED" := Object [TNum 5]]> debug_build) 1 _ _ _)));
    vm_compute; reflexivity.
Defined.

(** C7 as stated fails on two debug builds that agree on [_do_debug] and
    on [FIXEDDECIMAL] and differ in [DEBUG_NEW]: neither run reports
    anything, and after [#define DEBUG_NEW 1 || 2] the run includes
    [new.h] and defines [new], which the other run does not. *)
Lemma debug_new_changes_the_run_counterexample :
  configured debug_build 1 /\
  configured debug_build_compound_debug_new 1 /\
  defines debug_build "FIXEDDECIMAL" =
    defines debug_build_compound_debug_new "FIXEDDECIMAL" /\
  (run sample_included sample_beyond debug_build).2 = [] /\
  (run sample_included sample_beyond debug_build_compound_debug_new).2 = [] /\
  included_headers
    (trace (run sample_included sample_beyond debug_build).1) <>
  included_headers
    (trace (run sample_included sample_beyond
              debug_build_compound_debug_new).1) /\
  ~ defined_by (trace (run sample_included sample_beyond debug_build).1) "new" /\
  defined_by
    (trace (run sample_included sample_beyond
              debug_build_compound_debug_new).1) "new".
Proof.
  rewrite !defined_by_last.
  repeat split; try (vm_compute; (reflexivity || discriminate)).
  - vm_compute. by intros [? ?].
  - vm_compute. by eexists.
Qed.

(** C8, as amended.  In the two supported configurations
    [PP_DEBUGNEW_SUPPORT] is defined as 0 when the run ends.  A run
    includes [new.h] exactly when it defines [new], and exactly when the
    configuration is the debug one and the [#if] of line 149 holds in the
    table after [PP_Debug.h].  So the final build never redefines [new];
    and the debug build does not when [DEBUG_NEW] and [DEBUG_NEW_LEAKS]
    each stand, after replacement, for one operand, a number or a name:
    the condition is then [0 && a == b], which is 0.
    (Assumption on the included headers: [keeps_prefix_macros].) *)
Theorem new_is_redefined_only_by_line_149
    (included : header_name -> macro_table -> macro_table)
    (beyond : nat -> macro_table -> list token -> option N)
    (Hkeep : keeps_prefix_macros included) (m : macro_table) :
  supported m ->
  macros (run included beyond m).1 !! "PP_DEBUGNEW_SUPPORT" =
    Some (Object [TNum 0]) /\
  (Included (Angle "new.h") ∈ trace (run included beyond m).1 <->
   defined_by (trace (run included beyond m).1) "new") /\
  (Included (Angle "new.h") ∈ trace (run included beyond m).1 <->
   configured m 1 /\
   exists v, leaks_condition included beyond m = Some v /\ v <> 0) /\
  (configured m 0 ->
   (Included (Angle "new.h") ∉ trace (run included beyond m).1) /\
   ~ defined_by (trace (run included beyond m).1) "new") /\
  (configured m 1 ->
   forall t1 t2,
     expand (table_at_149 included m) [TId "DEBUG_NEW"] = [t1] ->
     expand (table_at_149 included m) [TId "DEBUG_NEW_LEAKS"] = [t2] ->
     operand (table_at_149 included m) t1 = true ->
     operand (table_at_149 included m) t2 = true ->
     (Included (Angle "new.h") ∉ trace (run included beyond m).1) /\
     ~ defined_by (trace (run included beyond m).1) "new").
Proof.
  intros Hs.
  split.
  { destruct (run_state_supported included beyond Hkeep m Hs)
      as (debug & leaks & -> & _).
    cbn [macros]. destruct debug, leaks, (defines m "FIXEDDECIMAL");
      by final_lookup included Hkeep. }
  split; [|split; [|split]].
  - destruct (run_state_supported included beyond Hkeep m Hs)
      as (debug & leaks & -> & _).
    cbn [trace]. by rewrite new_in_expansion, new_defined_in_expansion.
  - destruct Hs as [Hd|Hd].
    + rewrite (run_state_final included beyond Hkeep m Hd). cbn [trace].
      rewrite new_in_expansion. split; [done|].
      intros [Hone _]. unfold configured in *. congruence.
    + destruct (run_state_debug included beyond Hkeep m Hd)
        as (leaks & -> & Hleaks).
      cbn [trace]. rewrite new_in_expansion, Hleaks. tauto.
  - intros Hd. rewrite (run_state_final included beyond Hkeep m Hd).
    cbn [trace]. rewrite new_in_expansion, new_defined_in_expansion. done.
  - intros Hd t1 t2 H1 H2 Ho1 Ho2.
    assert (leaks_condition included beyond m = Some 0) as Hzero.
    { unfold leaks_condition. apply controlling_value.
      apply (leaks_condition_operands _ t1 t2); try assumption.
      unfold table_at_149. destruct (defines m "FIXEDDECIMAL");
        by final_lookup included Hkeep. }
    destruct (run_state_debug included beyond Hkeep m Hd)
      as (leaks & -> & Hleaks).
    cbn [trace]. rewrite new_in_expansion, new_defined_in_expansion, Hleaks.
    rewrite Hzero. split; intros (v & [= <-] & Hv); by apply Hv.
Qed.

Lemma new_is_redefined_only_by_line_149_witness :
  keeps_prefix_macros sample_included /\
  supported debug_build /\
  expand (table_at_149 sample_included debug_build) [TId "DEBUG_NEW"] =
    [TNum 2] /\
  ~ defined_by (trace (run sample_included sample_beyond debug_build).1) "new".
Proof.
  split; [exact sample_keeps|]. split; [right; vm_compute; reflexivity|].
  split; [vm_compute; reflexivity|].
  refine (proj2 (proj2 (proj2 (proj2 (proj2
            (new_is_redefined_only_by_line_149 sample_included sample_beyond
               sample_keeps debug_build _))))
            _ (TNum 2) (TNum 2) _ _ _ _));
    first [ right; vm_compute; reflexivity | vm_compute; reflexivity ].
Defined.

(** C8 as stated fails in the supported debug configuration after
    [#define DEBUG_NEW 1 || 2], with [DEBUG_NEW_LEAKS] defined as 2:
    [PP_DEBUGNEW_SUPPORT] is 0, and line 149 reads
    [0 && 1 || 2 == 2], which is 1.  The run reports nothing, includes
    [new.h] and defines [new] as [NEW]. *)
Lemma compound_debug_new_redefines_new_counterexample :
  supported debug_build_compound_debug_new /\
  (run sample_included sample_beyond debug_build_compound_debug_new).2 = [] /\
  macros (run sample_included sample_beyond debug_build_compound_debug_new).1
    !! "PP_DEBUGNEW_SUPPORT" = Some (Object [TNum 0]) /\
  expand (table_at_149 sample_included debug_build_compound_debug_new)
         debug_new_leaks_condition =
    [TNum 0; TAndAnd; TNum 1; TOrOr; TNum 2; TEqEq; TNum 2] /\
  leaks_condition sample_included sample_beyond
    debug_build_compound_debug_new = Some 1 /\
  Included (Angle "new.h") ∈
    trace (run sample_included sample_beyond debug_build_compound_debug_new).1 /\
  Defined "new" [TId "NEW"] ∈
    trace (run sample_included sample_beyond debug_build_compound_debug_new).1.
Proof.
  split; [right; vm_compute; reflexivity|].
  repeat split; try (vm_compute; reflexivity); decided.
Qed.

(** C9.  The guard of lines 40-42 leaves a [FIXEDDECIMAL] that is
    already defined as it is, defines it as 1 when it is not, reports
    nothing, and touches no other macro, on any state.  For the header as
    a whole, whatever the macro table before it: [FIXEDDECIMAL] ends with
    the definition it had before, or with 1 when it had none, and is
    defined in both cases.
    (Assumption on the included headers, for the whole header:
    [keeps_prefix_macros].) *)
Theorem fixeddecimal_is_kept_or_set
    (included : header_name -> macro_table -> macro_table)
    (beyond : nat -> macro_table -> list token -> option N)
    (Hkeep : keeps_prefix_macros included) :
  (forall (s : pp_state) (ds : list diagnostic),
     (forall r, macros s !! "FIXEDDECIMAL" = Some r ->
                macros (fixeddecimal_guard (s, ds)).1 !! "FIXEDDECIMAL" =
                  Some r) /\
     (macros s !! "FIXEDDECIMAL" = None ->
      macros (fixeddecimal_guard (s, ds)).1 !! "FIXEDDECIMAL" =
        Some (Object [TNum 1])) /\
     is_Some (macros (fixeddecimal_guard (s, ds)).1 !! "FIXEDDECIMAL") /\
     (forall x, x <> "FIXEDDECIMAL" ->
                macros (fixeddecimal_guard (s, ds)).1 !! x = macros s !! x) /\
     (fixeddecimal_guard (s, ds)).2 = ds)
  /\
  (forall m : macro_table,
     (forall r, m !! "FIXEDDECIMAL" = Some r ->
                macros (run included beyond m).1 !! "FIXEDDECIMAL" = Some r) /\
     (m !! "FIXEDDECIMAL" = None ->
      macros (run included beyond m).1 !! "FIXEDDECIMAL" =
        Some (Object [TNum 1])) /\
     is_Some (macros (run included beyond m).1 !! "FIXEDDECIMAL")).
Proof.
  split.
  - intros [m t] ds. cbn [macros].
    destruct (m !! "FIXEDDECIMAL") as [r|] eqn:HF.
    + rewrite (fixeddecimal_guard_defined m t ds r HF). cbn [fst snd macros].
      rewrite HF. repeat split; eauto. intros [=].
    + rewrite (fixeddecimal_guard_undefined m t ds HF). cbn [fst snd macros].
      rewrite lookup_insert_eq. repeat split; eauto.
      * intros r [=].
      * intros x Hx. by rewrite lookup_insert_ne.
  - intros m. rewrite (run_fixeddecimal included beyond Hkeep).
    destruct (m !! "FIXEDDECIMAL") as [r|]; repeat split; eauto;
      by intros r' [= ->] || intros [=].
Qed.

Lemma fixeddecimal_is_kept_or_set_witness :
  keeps_prefix_macros sample_included /\
  macros (run sample_included sample_beyond debug_build).1 !! "FIXEDDECIMAL" =
    Some (Object [TNum 1]).
Proof.
  split; [exact sample_keeps|].
  apply (fixeddecimal_is_kept_or_set sample_included sample_beyond sample_keeps).
  vm_compute; reflexivity.
Defined.



(** * Beyond the supported configurations: every run of the header *)

(** X1.  Whatever the macro table before the header, and whatever the
    run reports, the run goes through the whole header: the events of
    lines 9-46, with the definition of [FIXEDDECIMAL] when it was not
    defined before, those of lines 65-79, those of one branch of lines
    81-116, [PP_Debug.h], lines 150-152 or not, and lines 160-177.  The
    table where it ends is the table before the header with these events
    on top.
    (Assumption on the included headers: [keeps_prefix_macros].) *)
Theorem every_run_has_a_known_shape
    (included : header_name -> macro_table -> macro_table)
    (beyond : nat -> macro_table -> list token -> option N)
    (Hkeep : keeps_prefix_macros included) (m : macro_table) :
  macros (run included beyond m).1 =
    replay included m (trace (run included beyond m).1) /\
  exists debug leaks,
    trace (run included beyond m).1 =
    expansion debug leaks (defines m "FIXEDDECIMAL").
Proof.
  split.
  - apply (run_macros included beyond Hkeep).
  - apply (run_trace_expansion included beyond Hkeep).
Qed.

Lemma every_run_has_a_known_shape_witness :
  keeps_prefix_macros sample_included /\
  (macros (run sample_included sample_beyond valueless_build).1 =
      replay sample_included valueless_build (trace (run sample_included sample_beyond valueless_build).1) /\
    exists debug leaks,
      trace (run sample_included sample_beyond valueless_build).1 =
      expansion debug leaks (defines valueless_build "FIXEDDECIMAL")).
Proof.
  split; [exact sample_keeps|].
  exact (every_run_has_a_known_shape sample_included sample_beyond sample_keeps valueless_build).
Defined.

(** X2.  Whatever the macro table before the header, a run includes
    [new.h] exactly when it defines [new]; it then does both right after
    [PP_Debug.h] and right before the widget headers, [new.h] first, and
    nowhere else.
    (Assumption on the included headers: [keeps_prefix_macros].) *)
Theorem new_h_and_new_go_together
    (included : header_name -> macro_table -> macro_table)
    (beyond : nat -> macro_table -> list token -> option N)
    (Hkeep : keeps_prefix_macros included) (m : macro_table) :
  (Included (Angle "new.h") ∈ trace (run included beyond m).1 <->
   defined_by (trace (run included beyond m).1) "new") /\
  (defined_by (trace (run included beyond m).1) "new" ->
   exists t1,
     trace (run included beyond m).1 =
       t1 ++
       [ Included (Angle "PP_Debug.h"); Included (Angle "new.h");
         Defined "new" [TId "NEW"] ] ++
       expansion_160_177 /\
     (Included (Angle "new.h") ∉ t1) /\
     ~ defined_by t1 "new").
Proof.
  rewrite !defined_by_last.
  pose proof
    (every_run included beyond Hkeep
       (fun t =>
          (Included (Angle "new.h") ∈ t <->
           is_Some (last_definition "new" t)) /\
          (is_Some (last_definition "new" t) ->
           t = events_before (Included (Angle "PP_Debug.h")) t ++
               [ Included (Angle "PP_Debug.h"); Included (Angle "new.h");
                 Defined "new" [TId "NEW"] ] ++
               expansion_160_177 /\
           (Included (Angle "new.h") ∉
              events_before (Included (Angle "PP_Debug.h")) t) /\
           ~ is_Some (last_definition "new"
                        (events_before (Included (Angle "PP_Debug.h")) t))))
       m ltac:(decided)) as [Hiff Hplace].
  split; [exact Hiff|]. intros Hnew.
  exists (events_before (Included (Angle "PP_Debug.h"))
            (trace (run included beyond m).1)).
  rewrite defined_by_last. by apply Hplace.
Qed.

Lemma new_h_and_new_go_together_witness :
  keeps_prefix_macros sample_included /\
  (Included (Angle "new.h") ∈
     trace (run sample_included sample_beyond
              debug_build_compound_debug_new).1 <->
   defined_by
     (trace (run sample_included sample_beyond
               debug_build_compound_debug_new).1) "new").
Proof.
  split; [exact sample_keeps|].
  exact (proj1 (new_h_and_new_go_together sample_included sample_beyond
                  sample_keeps debug_build_compound_debug_new)).
Defined.

(** X3.  The group of lines 77-79 is under [#if 0]: whatever the macro
    table before the header, no run defines [__dest_os].
    (Assumption on the included headers: [keeps_prefix_macros].) *)
Theorem dest_os_is_never_defined
    (included : header_name -> macro_table -> macro_table)
    (beyond : nat -> macro_table -> list token -> option N)
    (Hkeep : keeps_prefix_macros included) (m : macro_table) :
  ~ defined_by (trace (run included beyond m).1) "__dest_os".
Proof.
  rewrite defined_by_last.
  apply (every_run included beyond Hkeep
           (fun t => ~ is_Some (last_definition "__dest_os" t))).
  decided.
Qed.

Lemma dest_os_is_never_defined_witness :
  keeps_prefix_macros sample_included /\
  ~ defined_by (trace (run sample_included sample_beyond debug_build).1)
      "__dest_os".
Proof.
  split; [exact sample_keeps|].
  exact (dest_os_is_never_defined sample_included sample_beyond sample_keeps
           debug_build).
Defined.

(** X4.  Whatever the macro table before the header, a run defines no
    macro twice and includes no header twice.
    (Assumption on the included headers: [keeps_prefix_macros].) *)
Theorem nothing_is_defined_or_included_twice
    (included : header_name -> macro_table -> macro_table)
    (beyond : nat -> macro_table -> list token -> option N)
    (Hkeep : keeps_prefix_macros included) (m : macro_table) :
  NoDup (defined_names (trace (run included beyond m).1)) /\
  NoDup (included_headers (trace (run included beyond m).1)).
Proof.
  apply (every_run included beyond Hkeep
           (fun t => NoDup (defined_names t) /\ NoDup (included_headers t))).
  decided.
Qed.

Lemma nothing_is_defined_or_included_twice_witness :
  keeps_prefix_macros sample_included /\
  NoDup (included_headers
           (trace (run sample_included sample_beyond
                     debug_build_compound_debug_new).1)).
Proof.
  split; [exact sample_keeps|].
  exact (proj2 (nothing_is_defined_or_included_twice sample_included
                  sample_beyond sample_keeps debug_build_compound_debug_new)).
Defined.

(** ** The order of the events *)

Lemma events_before_split ev (t1 t2 : list event) :
  ev ∉ t1 -> events_before ev (t1 ++ ev :: t2) = t1.
Proof.
  induction t1 as [|ev' t1 IH]; intros Hnot; cbn [events_before app].
  - by rewrite decide_True.
  - apply not_elem_of_cons in Hnot as [Hne Hnot].
    rewrite decide_False by done. by rewrite IH.
Qed.

Lemma events_before_unique ev (t t1 t2 : list event) :
  NoDup t -> t = t1 ++ ev :: t2 -> t1 = events_before ev t.
Proof.
  intros Hnodup ->. symmetry. apply events_before_split.
  apply NoDup_app in Hnodup as (_ & Hdisjoint & _).
  intros Hin. apply (Hdisjoint ev Hin). by left.
Qed.

(** X5.  "After defining all the debugging macros, we are ready for this
    header" (lines 117-119).  Whatever the macro table before the header,
    in a run that includes [PP_Debug.h] the events before that inclusion
    define [PP_DEBUG], [PP_SPOTLIGHT_SUPPORT], [PP_QC_SUPPORT] and
    [PP_DEBUGNEW_SUPPORT], and the four are defined in the table built by
    these events, the one in which [PP_Debug.h] is processed.
    (Assumption on the included headers: [keeps_prefix_macros].) *)
Theorem debugging_macros_precede_pp_debug
    (included : header_name -> macro_table -> macro_table)
    (beyond : nat -> macro_table -> list token -> option N)
    (Hkeep : keeps_prefix_macros included) (m : macro_table)
    (t1 t2 : list event) :
  trace (run included beyond m).1 = t1 ++ Included (Angle "PP_Debug.h") :: t2 ->
  forall x,
    x ∈ [ "PP_DEBUG"; "PP_SPOTLIGHT_SUPPORT"; "PP_QC_SUPPORT";
          "PP_DEBUGNEW_SUPPORT" ] ->
    defined_by t1 x /\ is_Some (replay included m t1 !! x).
Proof.
  intros Hsplit x Hx.
  pose proof
    (every_run included beyond Hkeep
       (fun t =>
          Included (Angle "PP_Debug.h") ∈ t ->
          NoDup t /\
          Forall (fun x =>
                    is_Some (last_definition x
                               (events_before (Included (Angle "PP_Debug.h")) t)))
            [ "PP_DEBUG"; "PP_SPOTLIGHT_SUPPORT"; "PP_QC_SUPPORT";
              "PP_DEBUGNEW_SUPPORT" ])
       m ltac:(decided)) as Hall.
  destruct Hall as [Hnodup Hall].
  { rewrite Hsplit. apply elem_of_app. right. by left. }
  rewrite <- (events_before_unique _ _ t1 t2 Hnodup Hsplit) in Hall.
  rewrite Forall_forall in Hall. destruct (Hall x Hx) as [r Hr].
  split; [apply defined_by_last; by exists r|].
  exists (Object r). apply (replay_lookup_defined included Hkeep); [|exact Hr].
  revert Hx. clear. rewrite !elem_of_cons.
  intros [->|[->|[->|[->|Hx]]]]; [in_list .. | by apply elem_of_nil in Hx].
Qed.

Lemma debugging_macros_precede_pp_debug_witness :
  keeps_prefix_macros sample_included /\
  trace (run sample_included sample_beyond final_build).1 =
    take 30 (trace (run sample_included sample_beyond final_build).1) ++
    Included (Angle "PP_Debug.h") ::
    drop 31 (trace (run sample_included sample_beyond final_build).1) /\
  defined_by
    (take 30 (trace (run sample_included sample_beyond final_build).1))
    "PP_DEBUG".
Proof.
  split; [exact sample_keeps|].
  assert (trace (run sample_included sample_beyond final_build).1 =
          take 30 (trace (run sample_included sample_beyond final_build).1) ++
          Included (Angle "PP_Debug.h") ::
          drop 31 (trace (run sample_included sample_beyond final_build).1))
    as Hsplit by (vm_compute; reflexivity).
  split; [exact Hsplit|].
  refine (proj1 (debugging_macros_precede_pp_debug sample_included
                   sample_beyond sample_keeps final_build _ _ Hsplit
                   "PP_DEBUG" _)).
  decided.
Defined.

(** X6.  Lines 9, 21-30, 46 and 65-73.  Whatever the macro table before
    the header, and whatever it held for these names (a definition on the
    command line, say), a run that reports nothing ends with each of the
    fifteen macros that the header defines as a number outside any
    conditional defined as that number: the header defines them without
    [#ifndef].
    (Assumption on the included headers: [keeps_prefix_macros].) *)
Theorem unconditional_options_are_set
    (included : header_name -> macro_table -> macro_table)
    (beyond : nat -> macro_table -> list token -> option N)
    (Hkeep : keeps_prefix_macros included) (m : macro_table) (s : pp_state) :
  run included beyond m = (s, []) ->
  forall x z,
    (x, z) ∈ unconditional_options ->
    macros s !! x = Some (Object [TNum z]) /\
    eval_expr (macros s) [TId x] = Value z.
Proof.
  intros Hr x z Hxz.
  pose proof (run_state included beyond Hkeep m) as Hstate.
  pose proof
    (every_run included beyond Hkeep
       (fun t =>
          Forall (fun xz =>
                    xz.1 ∈ prefix_macros /\
                    reserved xz.1 = false /\
                    wrap xz.2 = xz.2 /\
                    last_definition xz.1 t = Some [TNum xz.2])
            unconditional_options)
       m ltac:(decided)) as Hall.
  rewrite Hr in Hstate, Hall. cbn [fst] in Hstate, Hall.
  rewrite Forall_forall in Hall.
  destruct (Hall _ Hxz) as (Hprefix & Hplain & Hwrap & Hlast).
  cbn [fst snd] in *.
  assert (macros s !! x = Some (Object [TNum z])) as Hlookup
    by (rewrite Hstate; cbn [macros];
        by apply (replay_lookup_defined included Hkeep)).
  split; [exact Hlookup|].
  by rewrite (eval_expr_literal _ x z Hplain Hlookup), Hwrap.
Qed.

Lemma unconditional_options_are_set_witness :
  keeps_prefix_macros sample_included /\
  macros
    (run sample_included sample_beyond
       (<["SystemSevenOrLater" := Object [TNum 0]]> final_build)).1
    !! "SystemSevenOrLater" = Some (Object [TNum 1]).
Proof.
  split; [exact sample_keeps|].
  refine (proj1 (unconditional_options_are_set sample_included sample_beyond
                   sample_keeps
                   (<["SystemSevenOrLater" := Object [TNum 0]]> final_build)
                   (run sample_included sample_beyond
                      (<["SystemSevenOrLater" := Object [TNum 0]]>
                         final_build)).1 _ "SystemSevenOrLater" 1 _)).
  - apply completes_in_its_state. vm_compute; reflexivity.
  - decided.
Defined.

(** X7.  Lines 175-177.  Whatever the macro table before the header, a
    run that reports nothing ends with the inclusion of [my_notation.h]
    and, after it, the definition of [_mac_gui_app]: when [my_notation.h]
    is processed, the header has not defined [_mac_gui_app] yet.
    (Assumption on the included headers: [keeps_prefix_macros].) *)
Theorem mac_gui_app_is_defined_last
    (included : header_name -> macro_table -> macro_table)
    (beyond : nat -> macro_table -> list token -> option N)
    (Hkeep : keeps_prefix_macros included) (m : macro_table) (s : pp_state) :
  run included beyond m = (s, []) ->
  exists t1,
    trace s =
      t1 ++ [ Included (Quoted "my_notation.h"); Defined "_mac_gui_app" [] ] /\
    ~ defined_by t1 "_mac_gui_app" /\
    (Included (Quoted "my_notation.h") ∉ t1).
Proof.
  intros Hr.
  exists (events_before (Included (Quoted "my_notation.h")) (trace s)).
  rewrite defined_by_last.
  pose proof
    (every_run included beyond Hkeep
       (fun t =>
          t = events_before (Included (Quoted "my_notation.h")) t ++
              [ Included (Quoted "my_notation.h"); Defined "_mac_gui_app" [] ] /\
          ~ is_Some
              (last_definition "_mac_gui_app"
                 (events_before (Included (Quoted "my_notation.h")) t)) /\
          (Included (Quoted "my_notation.h") ∉
             events_before (Included (Quoted "my_notation.h")) t))
       m ltac:(decided)) as Hall.
  by rewrite Hr in Hall.
Qed.

Lemma mac_gui_app_is_defined_last_witness :
  keeps_prefix_macros sample_included /\
  exists t1,
    trace (run sample_included sample_beyond final_build).1 =
      t1 ++ [ Included (Quoted "my_notation.h"); Defined "_mac_gui_app" [] ] /\
    ~ defined_by t1 "_mac_gui_app" /\
    (Included (Quoted "my_notation.h") ∉ t1).
Proof.
  split; [exact sample_keeps|].
  refine (mac_gui_app_is_defined_last sample_included sample_beyond
            sample_keeps final_build
            (run sample_included sample_beyond final_build).1 _).
  apply completes_in_its_state. vm_compute; reflexivity.
Defined.

(** X8.  Lines 160-177 hold no conditional, and a diagnostic does not
    end preprocessing.  Whatever the macro table before the header, and
    whatever the run reports, the run includes the four library headers,
    [PP_Debug.h], [new.h] or not, the eleven widget headers in the order
    of the source and [my_notation.h], and its last event is the
    definition of [_mac_gui_app].
    (Assumption on the included headers: [keeps_prefix_macros].) *)
Theorem widget_headers_in_every_run
    (included : header_name -> macro_table -> macro_table)
    (beyond : nat -> macro_table -> list token -> option N)
    (Hkeep : keeps_prefix_macros included) (m : macro_table) :
  (exists new_h,
     (new_h = [] \/ new_h = [Angle "new.h"]) /\
     included_headers (trace (run included beyond m).1) =
       [ Angle "MSLCarbonPrefix.h"; Angle "cmath"; Angle "fp.h";
         Angle "complex"; Angle "PP_Debug.h" ] ++
       new_h ++ widget_headers ++ [ Quoted "my_notation.h" ]) /\
  last (trace (run included beyond m).1) = Some (Defined "_mac_gui_app" []).
Proof.
  destruct (run_trace_expansion included beyond Hkeep m)
    as (debug & leaks & ->).
  split.
  - exists (if leaks then [Angle "new.h"] else []).
    split; [destruct leaks; auto|].
    by destruct debug, leaks, (defines m "FIXEDDECIMAL"); vm_compute.
  - by destruct debug, leaks, (defines m "FIXEDDECIMAL"); vm_compute.
Qed.

Lemma widget_headers_in_every_run_witness :
  keeps_prefix_macros sample_included /\
  last (trace (run sample_included sample_beyond valueless_build).1) =
    Some (Defined "_mac_gui_app" []).
Proof.
  split; [exact sample_keeps|].
  exact (proj2 (widget_headers_in_every_run sample_included sample_beyond
                  sample_keeps valueless_build)).
Defined.

(** X9.  The guards of lines 54-60 are the [#ifndef] of line 54 followed
    by the [#if] of line 58.  An undefined [_do_debug] would pass the
    [#if] on its own, because an identifier that is not a macro counts as
    0 there; it is the [#ifndef] that reports it. *)
Theorem undefined_do_debug_needs_the_ifndef
    (beyond : nat -> macro_table -> list token -> option N)
    (m : macro_table) t ds :
  m !! "_do_debug" = None ->
  zero_or_one_guard beyond (PPState m t, ds) = (PPState m t, ds) /\
  (pp_ifndef "_do_debug" (pp_error "_do_debug is not yet #defined") ;;
   zero_or_one_guard beyond) (PPState m t, ds) =
    (PPState m t, ds ++ [ErrorDirective "_do_debug is not yet #defined"]) /\
  do_debug_guards beyond =
    (pp_ifndef "_do_debug" (pp_error "_do_debug is not yet #defined") ;;
     zero_or_one_guard beyond).
Proof.
  intros Hd.
  assert (forall ds',
            zero_or_one_guard beyond (PPState m t, ds') = (PPState m t, ds'))
    as Hguard.
  { intros ds'. unfold zero_or_one_guard.
    rewrite (exec_end (pp_if _ _ _ _ _)).
    by rewrite (exec_if_value beyond 58 _ _ _ _ _ _ _ 0)
      by (apply controlling_value, not_zero_or_one_undefined, Hd). }
  split; [apply Hguard|]. split; [|reflexivity].
  rewrite exec_ifndef_undefined by exact Hd.
  rewrite exec_error. apply Hguard.
Qed.

Lemma undefined_do_debug_needs_the_ifndef_witness :
  (∅ : macro_table) !! "_do_debug" = None /\
  zero_or_one_guard sample_beyond (PPState ∅ [], []) = (PPState ∅ [], []).
Proof.
  split; [reflexivity|].
  refine (proj1 (undefined_do_debug_needs_the_ifndef sample_beyond ∅ [] [] _)).
  reflexivity.
Defined.

(** ** Processing the header a second time *)

(** The definitions of [FIXEDDECIMAL] and [new] apart, the events of a
    build define the same macros in the same way, whether lines 150-152
    are processed or not and whether [FIXEDDECIMAL] was defined before or
    not. *)
Lemma expansion_definitions_of_build debug leaks fixeddecimal leaks'
    fixeddecimal' x :
  defined_by (expansion debug leaks fixeddecimal) x ->
  x <> "new" -> x <> "FIXEDDECIMAL" ->
  x ∈ prefix_macros /\
  is_Some (last_definition x (expansion debug leaks fixeddecimal)) /\
  last_definition x (expansion debug leaks' fixeddecimal') =
    last_definition x (expansion debug leaks fixeddecimal).
Proof.
  intros Hx Hnew Hfixed. apply defined_by_names in Hx.
  assert (Forall (fun y =>
                    y = "new" \/ y = "FIXEDDECIMAL" \/
                    (y ∈ prefix_macros /\
                     is_Some (last_definition y
                                (expansion debug leaks fixeddecimal)) /\
                     last_definition y (expansion debug leaks' fixeddecimal') =
                       last_definition y (expansion debug leaks fixeddecimal)))
            (defined_names (expansion debug leaks fixeddecimal))) as Hall
    by (destruct debug, leaks, fixeddecimal, leaks', fixeddecimal'; decided).
  rewrite Forall_forall in Hall. by destruct (Hall x Hx) as [?|[?|?]].
Qed.

(** X10.  The header has no include guard.  Take a supported or any
    other literal configuration, a run that reports nothing, and a second
    run on the table that the first one leaves, which reports nothing
    either.  The second run defines again what the first one defined,
    except [FIXEDDECIMAL], which its guard now skips, and leaves every
    macro that the first run defined with the definition it had; it
    includes the same headers again.  This leaves [new] and [new.h]
    aside: the [#if] of line 149 is evaluated again in the second run,
    in another table.  In the final build the two runs include the same
    headers.
    (Assumption on the included headers: [keeps_prefix_macros].) *)
Theorem second_processing_changes_no_definition
    (included : header_name -> macro_table -> macro_table)
    (beyond : nat -> macro_table -> list token -> option N)
    (Hkeep : keeps_prefix_macros included)
    (m : macro_table) (d : N) (s1 s2 : pp_state) :
  configured m d ->
  run included beyond m = (s1, []) ->
  run included beyond (macros s1) = (s2, []) ->
  (forall x, x <> "new" -> defined_by (trace s1) x ->
             macros s2 !! x = macros s1 !! x) /\
  included_headers (without_new (trace s2)) =
    included_headers (without_new (trace s1)) /\
  ~ defined_by (trace s2) "FIXEDDECIMAL" /\
  (forall x, x <> "FIXEDDECIMAL" -> x <> "new" ->
             (defined_by (trace s2) x <-> defined_by (trace s1) x)) /\
  (wrap d = 0 -> included_headers (trace s2) = included_headers (trace s1)).
Proof.
  intros Hd Hr1 Hr2.
  destruct (run_configured_trace included beyond Hkeep m d Hd)
    as (l1 & Hs1 & Hzero1 & _).
  rewrite Hr1 in Hs1. cbn [fst] in Hs1. subst s1. cbn [macros trace] in *.
  set (b := negb (wrap d =? 0)) in *.
  set (fd := defines m "FIXEDDECIMAL") in *.
  set (m1 := replay included m (expansion b l1 fd)) in *.
  assert (configured m1 d) as Hd1.
  { unfold configured, m1.
    rewrite (replay_lookup_control included Hkeep) by in_list.
    destruct b, l1, fd; last_def; exact Hd. }
  assert (m1 !! "FIXEDDECIMAL" =
          from_option (fun body => Some (Object body)) (m !! "FIXEDDECIMAL")
            (last_definition "FIXEDDECIMAL" (expansion b l1 fd))) as HF1
    by (unfold m1; by rewrite (replay_lookup_control included Hkeep) by in_list).
  assert (defines m1 "FIXEDDECIMAL" = true) as Hfd1.
  { unfold defines. rewrite HF1. unfold fd, defines.
    destruct (m !! "FIXEDDECIMAL"); destruct b, l1; last_def; reflexivity. }
  destruct (run_configured_trace included beyond Hkeep m1 d Hd1)
    as (l2 & Hs2 & Hzero2 & _).
  rewrite Hr2 in Hs2. cbn [fst] in Hs2. subst s2.
  fold b in Hzero2 |- *. rewrite Hfd1. cbn [macros trace].
  split; [|split; [|split; [|split]]].
  - intros x Hnew Hx.
    destruct (decide (x = "FIXEDDECIMAL")) as [->|Hne].
    + rewrite (replay_lookup_control included Hkeep) by in_list.
      destruct b, l2; last_def; reflexivity.
    + destruct (expansion_definitions_of_build b l1 fd l2 true x Hx Hnew Hne)
        as (Hprefix & [body Hlast] & Hsame).
      rewrite Hlast in Hsame.
      rewrite (replay_lookup_defined included Hkeep _ m1 x body Hprefix Hsame).
      unfold m1.
      by rewrite (replay_lookup_defined included Hkeep _ m x body Hprefix Hlast).
  - rewrite !without_new_expansion. by destruct b, fd; vm_compute.
  - rewrite defined_by_last. destruct b, l2; last_def; by intros [? ?].
  - intros x Hfixed Hnew. split; intros Hx.
    + destruct (expansion_definitions_of_build b l2 true l1 fd x Hx Hnew Hfixed)
        as (_ & Hsome & Hsame).
      apply defined_by_last. by rewrite Hsame.
    + destruct (expansion_definitions_of_build b l1 fd l2 true x Hx Hnew Hfixed)
        as (_ & Hsome & Hsame).
      apply defined_by_last. by rewrite Hsame.
  - intros Hw. rewrite (Hzero1 Hw), (Hzero2 Hw).
    by destruct b, fd; vm_compute.
Qed.

Lemma second_processing_changes_no_definition_witness :
  keeps_prefix_macros sample_included /\
  configured debug_build 1 /\
  ~ defined_by
      (trace (run sample_included sample_beyond
                (macros (run sample_included sample_beyond debug_build).1)).1)
      "FIXEDDECIMAL".
Proof.
  split; [exact sample_keeps|]. split; [vm_compute; reflexivity|].
  refine (proj1 (proj2 (proj2
            (second_processing_changes_no_definition sample_included
               sample_beyond sample_keeps debug_build 1
               (run sample_included sample_beyond debug_build).1
               (run sample_included sample_beyond
                  (macros (run sample_included sample_beyond debug_build).1)).1
               _ _ _)))).
  - vm_compute; reflexivity.
  - apply completes_in_its_state. vm_compute; reflexivity.
  - apply completes_in_its_state. vm_compute; reflexivity.
Defined.

(** Why the second processing is compared with [new] and [new.h] left
    aside: after [#define NEW 5] and [#define DEBUG_NEW 1 || ! new || 0]
    the debug build reports nothing, line 149 reads
    [0 && 1 || ! new || 0 == 2], the first run includes [new.h] and
    defines [new], and the second run, where [new] stands for 5, includes
    no [new.h] and reports nothing either. *)
Lemma second_processing_evaluates_line_149_again :
  configured debug_build_debug_new_reads_new 1 /\
  (run sample_included sample_beyond debug_build_debug_new_reads_new).2 = [] /\
  Included (Angle "new.h") ∈
    trace (run sample_included sample_beyond
             debug_build_debug_new_reads_new).1 /\
  (run sample_included sample_beyond
     (macros (run sample_included sample_beyond
                debug_build_debug_new_reads_new).1)).2 = [] /\
  Included (Angle "new.h") ∉
    trace (run sample_included sample_beyond
             (macros (run sample_included sample_beyond
                        debug_build_debug_new_reads_new).1)).1.
Proof. repeat split; try (vm_compute; reflexivity); decided. Qed.

(** ** The two branches of lines 81-116, on any table *)

(** X11.  Whatever the macro table before the header, a run ends in one
    of two states.  Either [PP_DEBUG] and [PP_SPOTLIGHT_SUPPORT] are 0,
    [DEBUG_NEW] is [DEBUG_NEW_OFF], and the run has defined neither
    [Debug_Throw] nor [Debug_Signal]; or they are 1, [Debug_Throw] and
    [Debug_Signal] are defined and empty, and the run has not defined
    [DEBUG_NEW] (line 98 is a comment).  In both, [PP_QC_SUPPORT] and
    [PP_DEBUGNEW_SUPPORT] are 0.  No run defines [PP_USE_MOREFILES]
    (lines 90 and 108 are comments).
    (Assumption on the included headers: [keeps_prefix_macros].) *)
Theorem debug_flags_agree_on_any_table
    (included : header_name -> macro_table -> macro_table)
    (beyond : nat -> macro_table -> list token -> option N)
    (Hkeep : keeps_prefix_macros included) (m : macro_table) :
  ~ defined_by (trace (run included beyond m).1) "PP_USE_MOREFILES" /\
  defined_by (trace (run included beyond m).1) "PP_DEBUG" /\
  macros (run included beyond m).1 !! "PP_QC_SUPPORT" =
    Some (Object [TNum 0]) /\
  macros (run included beyond m).1 !! "PP_DEBUGNEW_SUPPORT" =
    Some (Object [TNum 0]) /\
  ((macros (run included beyond m).1 !! "PP_DEBUG" = Some (Object [TNum 0]) /\
    macros (run included beyond m).1 !! "PP_SPOTLIGHT_SUPPORT" =
      Some (Object [TNum 0]) /\
    macros (run included beyond m).1 !! "DEBUG_NEW" =
      Some (Object [TId "DEBUG_NEW_OFF"]) /\
    ~ defined_by (trace (run included beyond m).1) "Debug_Throw" /\
    ~ defined_by (trace (run included beyond m).1) "Debug_Signal")
   \/
   (macros (run included beyond m).1 !! "PP_DEBUG" = Some (Object [TNum 1]) /\
    macros (run included beyond m).1 !! "PP_SPOTLIGHT_SUPPORT" =
      Some (Object [TNum 1]) /\
    macros (run included beyond m).1 !! "Debug_Throw" = Some (Object []) /\
    macros (run included beyond m).1 !! "Debug_Signal" = Some (Object []) /\
    ~ defined_by (trace (run included beyond m).1) "DEBUG_NEW")).
Proof.
  rewrite !defined_by_last.
  pose proof
    (every_run included beyond Hkeep
       (fun t =>
          ~ is_Some (last_definition "PP_USE_MOREFILES" t) /\
          is_Some (last_definition "PP_DEBUG" t) /\
          last_definition "PP_QC_SUPPORT" t = Some [TNum 0] /\
          last_definition "PP_DEBUGNEW_SUPPORT" t = Some [TNum 0] /\
          ((last_definition "PP_DEBUG" t = Some [TNum 0] /\
            last_definition "PP_SPOTLIGHT_SUPPORT" t = Some [TNum 0] /\
            last_definition "DEBUG_NEW" t = Some [TId "DEBUG_NEW_OFF"] /\
            ~ is_Some (last_definition "Debug_Throw" t) /\
            ~ is_Some (last_definition "Debug_Signal" t))
           \/
           (last_definition "PP_DEBUG" t = Some [TNum 1] /\
            last_definition "PP_SPOTLIGHT_SUPPORT" t = Some [TNum 1] /\
            last_definition "Debug_Throw" t = Some [] /\
            last_definition "Debug_Signal" t = Some [] /\
            ~ is_Some (last_definition "DEBUG_NEW" t))))
       m ltac:(decided)) as (Hmore & Hdebug & Hqc & Hnew & Hbranch).
  split; [exact Hmore|]. split; [exact Hdebug|].
  rewrite !(run_macros included beyond Hkeep m).
  set (t := trace (run included beyond m).1) in *.
  assert (forall x body,
            x ∈ prefix_macros -> last_definition x t = Some body ->
            replay included m t !! x = Some (Object body)) as Hlookup
    by (intros x body; apply (replay_lookup_defined included Hkeep)).
  split; [apply Hlookup; [in_list | exact Hqc]|].
  split; [apply Hlookup; [in_list | exact Hnew]|].
  destruct Hbranch as [(H1 & H2 & H3 & H4 & H5)|(H1 & H2 & H3 & H4 & H5)];
    [left | right];
    (repeat split; try assumption; (apply Hlookup; [in_list | assumption])).
Qed.

Lemma debug_flags_agree_on_any_table_witness :
  keeps_prefix_macros sample_included /\
  (~ defined_by (trace (run sample_included sample_beyond debug_build).1) "PP_USE_MOREFILES" /\
    defined_by (trace (run sample_included sample_beyond debug_build).1) "PP_DEBUG" /\
    macros (run sample_included sample_beyond debug_build).1 !! "PP_QC_SUPPORT" =
      Some (Object [TNum 0]) /\
    macros (run sample_included sample_beyond debug_build).1 !! "PP_DEBUGNEW_SUPPORT" =
      Some (Object [TNum 0]) /\
    ((macros (run sample_included sample_beyond debug_build).1 !! "PP_DEBUG" = Some (Object [TNum 0]) /\
      macros (run sample_included sample_beyond debug_build).1 !! "PP_SPOTLIGHT_SUPPORT" =
        Some (Object [TNum 0]) /\
      macros (run sample_included sample_beyond debug_build).1 !! "DEBUG_NEW" =
        Some (Object [TId "DEBUG_NEW_OFF"]) /\
      ~ defined_by (trace (run sample_included sample_beyond debug_build).1) "Debug_Throw" /\
      ~ defined_by (trace (run sample_included sample_beyond debug_build).1) "Debug_Signal")
     \/
     (macros (run sample_included sample_beyond debug_build).1 !! "PP_DEBUG" = Some (Object [TNum 1]) /\
      macros (run sample_included sample_beyond debug_build).1 !! "PP_SPOTLIGHT_SUPPORT" =
        Some (Object [TNum 1]) /\
      macros (run sample_included sample_beyond debug_build).1 !! "Debug_Throw" = Some (Object []) /\
      macros (run sample_included sample_beyond debug_build).1 !! "Debug_Signal" = Some (Object []) /\
      ~ defined_by (trace (run sample_included sample_beyond debug_build).1) "DEBUG_NEW"))).
Proof.
  split; [exact sample_keeps|].
  exact (debug_flags_agree_on_any_table sample_included sample_beyond sample_keeps debug_build).
Defined.

(** ** The two guards *)

(** X12.  The two guards of lines 54-60 exclude each other: whatever the
    macro table before the header, a run reports at most one [#error].
    When [_do_debug] is not defined it is the one of line 55, and when
    [_do_debug] is defined, in whatever way, the one of line 55 is not
    reported.
    (Assumption on the included headers: [keeps_prefix_macros].) *)
Theorem guards_report_at_most_one_error
    (included : header_name -> macro_table -> macro_table)
    (beyond : nat -> macro_table -> list token -> option N)
    (Hkeep : keeps_prefix_macros included) (m : macro_table) :
  (length (error_directives (run included beyond m).2) <= 1)%nat /\
  (m !! "_do_debug" = None ->
   error_directives (run included beyond m).2 =
     ["_do_debug is not yet #defined"]) /\
  (is_Some (m !! "_do_debug") ->
   "_do_debug is not yet #defined" ∉
     error_directives (run included beyond m).2).
Proof.
  rewrite (run_error_directives included beyond Hkeep m). unfold defines.
  destruct (m !! "_do_debug") as [r|] eqn:Hd.
  - destruct (controlling beyond 58 (guard_table included m) not_zero_or_one)
      as [v|]; [destruct (v =? 0)|]; cbn [app length];
      (split; [lia|]); (split; [done|]); intros _;
      rewrite ?elem_of_cons, ?elem_of_nil; intros H;
      repeat destruct H as [H|H]; done.
  - rewrite (controlling_value beyond 58 _ _ 0)
      by (apply not_zero_or_one_undefined;
          by rewrite (guard_table_do_debug included Hkeep)).
    cbn [N.eqb app length]. split; [lia|]. split; [done|].
    by intros [? ?].
Qed.

Lemma guards_report_at_most_one_error_witness :
  keeps_prefix_macros sample_included /\
  ((length (error_directives (run sample_included sample_beyond conjunction_build).2) <= 1)%nat /\
    (conjunction_build !! "_do_debug" = None ->
     error_directives (run sample_included sample_beyond conjunction_build).2 =
       ["_do_debug is not yet #defined"]) /\
    (is_Some (conjunction_build !! "_do_debug") ->
     "_do_debug is not yet #defined" ∉
       error_directives (run sample_included sample_beyond conjunction_build).2)).
Proof.
  split; [exact sample_keeps|].
  exact (guards_report_at_most_one_error sample_included sample_beyond sample_keeps conjunction_build).
Defined.

(** ** A [_do_debug] that is a number other than 0 and 1 *)

(** X13.  Whatever integer literal [_do_debug] is defined as, the
    [#if]s of lines 81 and 121 take it as true when its low 64 bits are
    not 0: the run then defines [Debug_Throw], [Debug_Signal] and
    [PP_DEBUG] as 1, also when the guard of line 58 has reported the
    literal as neither 0 nor 1; and it defines [PP_DEBUG] as 0, and
    neither [Debug_Throw] nor [Debug_Signal], when they are 0.
    (Assumption on the included headers: [keeps_prefix_macros].) *)
Theorem literal_selects_the_branch
    (included : header_name -> macro_table -> macro_table)
    (beyond : nat -> macro_table -> list token -> option N)
    (Hkeep : keeps_prefix_macros included) (m : macro_table) (d : N) :
  configured m d ->
  (defined_by (trace (run included beyond m).1) "Debug_Throw" <->
   wrap d <> 0) /\
  (defined_by (trace (run included beyond m).1) "Debug_Signal" <->
   wrap d <> 0) /\
  macros (run included beyond m).1 !! "PP_DEBUG" =
    Some (Object [TNum (if wrap d =? 0 then 0 else 1)]) /\
  (wrap d <> 0 -> wrap d <> 1 ->
   ErrorDirective "_do_debug is not zero or one" ∈ (run included beyond m).2 /\
   macros (run included beyond m).1 !! "PP_DEBUG" = Some (Object [TNum 1])).
Proof.
  intros Hd. rewrite !defined_by_last.
  assert (wrap d <> 0 -> wrap d <> 1 ->
          ErrorDirective "_do_debug is not zero or one" ∈
            (run included beyond m).2) as Hreported.
  { intros H0 H1. apply error_directive_elem.
    rewrite (run_configured_errors included beyond Hkeep m d Hd).
    unfold guard_reports. apply N.eqb_neq in H0, H1. rewrite H0, H1.
    by left. }
  destruct (run_configured_trace included beyond Hkeep m d Hd)
    as (leaks & Hr & _).
  rewrite Hr. cbn [trace macros].
  destruct (wrap d =? 0) eqn:Hw; cbn [negb].
  - apply N.eqb_eq in Hw.
    destruct leaks, (defines m "FIXEDDECIMAL"); last_def;
      final_lookup included Hkeep;
      (repeat split; try done; by intros [? ?]).
  - apply N.eqb_neq in Hw.
    destruct leaks, (defines m "FIXEDDECIMAL"); last_def;
      final_lookup included Hkeep;
      (repeat split; try done; try (by eexists); by apply Hreported).
Qed.

Lemma literal_selects_the_branch_witness :
  keeps_prefix_macros sample_included /\
  configured {[ "_do_debug" := Object [TNum 2] ]} 2 /\
  macros (run sample_included sample_beyond
            {[ "_do_debug" := Object [TNum 2] ]}).1 !! "PP_DEBUG" =
    Some (Object [TNum 1]).
Proof.
  split; [exact sample_keeps|]. split; [vm_compute; reflexivity|].
  refine (proj2 (proj2 (proj2 (proj2
            (literal_selects_the_branch sample_included sample_beyond
               sample_keeps {[ "_do_debug" := Object [TNum 2] ]} 2 _))) _ _));
    vm_compute; (reflexivity || discriminate).
Defined.
